(** * CBM-Admin: settlement recording and the NILA rate lookup

    A shallow embedding of two parts of the admin application:

    - [handleRecordSettlement] of the settlement management page
      (the form handler that writes a settlement, a ledger entry, the
      user's balance and a transfer record through the hosted data API);
    - [fetchNilaRate] of [apps/admin/src/lib/fetchNilaRate.ts] together
      with the [nila-rate] edge function it may be proxied through, the
      Express route of the same name and the [useNilaRate] hook;
    - the rest of the settlement page (choosing a user, the submit
      button, the preview, the summary cards);
    - of the credit pack modal and its helpers: the slug, the image URL
      fallback, the category selection and the image upload.

    The data API is modelled as an explicit store (four tables kept as
    lists, in insertion order) threaded through a small state-and-error
    monad; each awaited call of the handler is one atomic store
    operation, which may fail.  Credits are integers ([Z]); reward
    amounts and exchange rates are rationals ([Q]). *)

From Stdlib Require Import ZArith NArith QArith List String Ascii Bool Lia.
From Stdlib Require Import DecimalString DecimalN Permutation.
Import ListNotations.

Local Open Scope string_scope.
Local Open Scope Z_scope.
Local Open Scope list_scope.

(** ** String primitives of the host language used by the handler

    A string is a sequence of 8-bit characters.  White space and case
    are those of ASCII text: [trim] removes tab, line feed, vertical
    tab, form feed, carriage return and space, and case conversion acts
    on [a-z] and [A-Z]; characters from 128 on are left alone.  Where a
    statement depends on which characters these are, it is made for
    strings of characters below 128 ([ascii_only]). *)

Module Js.

(** White space removed by [String.prototype.trim] (ASCII part). *)
Definition is_space (c : ascii) : bool :=
  let n := nat_of_ascii c in
  ((9 <=? n) && (n <=? 13))%nat || (n =? 32)%nat.

Fixpoint trimStart (s : string) : string :=
  match s with
  | String c s' => if is_space c then trimStart s' else s
  | EmptyString => EmptyString
  end.

Fixpoint rev_string (acc s : string) : string :=
  match s with
  | EmptyString => acc
  | String c s' => rev_string (String c acc) s'
  end.

Definition trimEnd (s : string) : string :=
  rev_string "" (trimStart (rev_string "" s)).

Definition trim (s : string) : string := trimEnd (trimStart s).

Definition upper_char (c : ascii) : ascii :=
  let n := nat_of_ascii c in
  if ((97 <=? n) && (n <=? 122))%nat then ascii_of_nat (n - 32) else c.

Fixpoint toUpperCase (s : string) : string :=
  match s with
  | EmptyString => EmptyString
  | String c s' => String (upper_char c) (toUpperCase s')
  end.

(** [s.substring(i, j)] for [i <= j]: the characters at positions
    [i .. j-1], fewer when [s] is shorter. *)
Definition substring (i j : nat) (s : string) : string :=
  String.substring i (j - i) s.

(** Decimal rendering of a non-negative integer inside a template
    literal. *)
Definition number_to_string (n : N) : string :=
  NilEmpty.string_of_uint (N.to_uint n).

(** [s || null] on a string: the empty string is falsy. *)
Definition or_null (s : string) : option string :=
  match s with
  | EmptyString => None
  | _ => Some s
  end.

End Js.

(** ** Data model *)

Module Status.
Inductive t : Type := pending | processed | failed.
End Status.

(** The handler only ever writes ['completed']; the other two values
    are those the transfers table admits. *)
Module TransferStatus.
Inductive t : Type := completed | pending | failed.
End TransferStatus.

(** A row of the [profiles] table as the page selects it; the cached
    [users] list of the page holds [User] values read from it. *)
Module User.
Record t : Type := mk
  { id : string;
    full_name : string;
    email : string;
    credit_balance : Z }.
End User.

Module Profile.
Record t : Type := mk
  { id : string;
    full_name : string;
    email : string;
    credit_balance : Z;
    updated_at : string }.
End Profile.

(** The form state [formData]. *)
Module Form.
Record t : Type := mk
  { userId : string;
    creditsUsed : Z;
    rewardAmount : Q;
    network : string;
    walletAddress : string;
    transactionHash : string;
    notes : string }.
End Form.

(** The object inserted into [settlements]. *)
Module SettlementPayload.
Record t : Type := mk
  { settlementId : string;
    userId : string;
    creditsUsed : Z;
    rewardAmount : Q;
    network : string;
    walletAddress : string;
    transactionHash : option string;
    status : Status.t;
    notes : option string }.
End SettlementPayload.

(** A stored settlement: the payload together with the row [id] the
    store assigns, as returned by [.select().single()].  Timestamps the
    store fills in by default are not written or read by the handler and
    are left out. *)
Module Settlement.
Record t : Type := mk
  { id : string;
    fields : SettlementPayload.t }.
Definition settlementId (s : t) : string :=
  SettlementPayload.settlementId (fields s).
Definition status (s : t) : Status.t :=
  SettlementPayload.status (fields s).
Definition userId (s : t) : string :=
  SettlementPayload.userId (fields s).
Definition creditsUsed (s : t) : Z :=
  SettlementPayload.creditsUsed (fields s).
End Settlement.

(** The object inserted into [credit_ledger]. *)
Module Ledger.
Record t : Type := mk
  { userId : string;
    amount : Z;
    transaction_type : string;
    description : string;
    reference_id : string;
    balance_after : Z }.
End Ledger.

(** The object inserted into [nila_transfers]. *)
Module Transfer.
Record t : Type := mk
  { userId : string;
    settlementId : string;
    nilaAmount : Q;
    network : string;
    walletAddress : string;
    transactionHash : option string;
    status : TransferStatus.t;
    transferType : string;
    notes : string }.
End Transfer.

(** ** The store *)

Record DB : Type := mkDB
  { settlements : list Settlement.t;
    credit_ledger : list Ledger.t;
    profiles : list Profile.t;
    nila_transfers : list Transfer.t }.

Inductive StoreError : Type :=
| UniqueViolation (table column : string)
| WriteFault (table : string).

(** Which of the four awaited writes of one handler run the store
    refuses (network or store fault). *)
Record Faults : Type := mkFaults
  { fail_settlements_insert : bool;
    fail_credit_ledger_insert : bool;
    fail_profiles_update : bool;
    fail_nila_transfers_insert : bool }.

Definition no_faults : Faults := mkFaults false false false false.

(** What one run of the handler reads from outside the page state. *)
Record Env : Type := mkEnv
  { now : N;                 (* Date.now() *)
    random36 : string;       (* Math.random().toString(36) *)
    row_id : string;         (* id the store gives the inserted settlement *)
    iso_now : string;        (* new Date().toISOString() *)
    settlementId_unique : bool;
                             (* the settlements table refuses a repeated
                                settlementId *)
    faults : Faults }.

(** State and error monad over the store: a failed call leaves the
    writes made so far in place. *)
Definition M (A : Type) : Type := DB -> DB * (StoreError + A).

Definition ret {A} (a : A) : M A := fun db => (db, inr a).

Definition throw {A} (e : StoreError) : M A := fun db => (db, inl e).

Definition bind {A B} (m : M A) (k : A -> M B) : M B :=
  fun db =>
    match m db with
    | (db', inl e) => (db', inl e)
    | (db', inr a) => k a db'
    end.

Declare Scope store_scope.
Delimit Scope store_scope with store.
Notation "x <- m ;; k" := (bind m (fun x => k))
  (at level 61, m at next level, right associativity) : store_scope.
Notation "m ;;; k" := (bind m (fun _ => k))
  (at level 61, right associativity) : store_scope.

Module Store.

Definition has_settlementId (sid : string) (db : DB) : bool :=
  existsb (fun s => Settlement.settlementId s =? sid)%string (settlements db).

(** Modelled from the spec: the declaration of the [settlements]
    table is not among the sources; the store schema lists
    [settlements(settlementId unique, ...)].  Under that constraint
    ([unique]) an insert whose [settlementId] is already stored is
    refused. *)
Definition refuses (unique : bool) (sid : string) (db : DB) : bool :=
  unique && has_settlementId sid db.

Definition insert_settlement (f : Faults) (unique : bool) (new_id : string)
    (p : SettlementPayload.t) : M Settlement.t :=
  fun db =>
    if fail_settlements_insert f then
      (db, inl (WriteFault "settlements"))
    else if refuses unique (SettlementPayload.settlementId p) db then
      (db, inl (UniqueViolation "settlements" "settlementId"))
    else
      let row := Settlement.mk new_id p in
      (mkDB (settlements db ++ [row]) (credit_ledger db)
            (profiles db) (nila_transfers db),
       inr row).

Definition insert_ledger (f : Faults) (p : Ledger.t) : M unit :=
  fun db =>
    if fail_credit_ledger_insert f then
      (db, inl (WriteFault "credit_ledger"))
    else
      (mkDB (settlements db) (credit_ledger db ++ [p])
            (profiles db) (nila_transfers db),
       inr tt).

(** [.update({credit_balance, updated_at}).eq('id', uid)]: every row
    whose [id] matches is rewritten; no matching row is not an error. *)
Definition set_balance (uid : string) (balance : Z) (stamp : string)
    (p : Profile.t) : Profile.t :=
  if (Profile.id p =? uid)%string then
    Profile.mk (Profile.id p) (Profile.full_name p) (Profile.email p)
               balance stamp
  else p.

Definition update_profile (f : Faults) (uid : string) (balance : Z)
    (stamp : string) : M unit :=
  fun db =>
    if fail_profiles_update f then
      (db, inl (WriteFault "profiles"))
    else
      (mkDB (settlements db) (credit_ledger db)
            (map (set_balance uid balance stamp) (profiles db))
            (nila_transfers db),
       inr tt).

Definition insert_transfer (f : Faults) (p : Transfer.t) : M unit :=
  fun db =>
    if fail_nila_transfers_insert f then
      (db, inl (WriteFault "nila_transfers"))
    else
      (mkDB (settlements db) (credit_ledger db) (profiles db)
            (nila_transfers db ++ [p]),
       inr tt).

(** The balance the store currently holds for a user. *)
Definition stored_balance (uid : string) (db : DB) : option Z :=
  option_map Profile.credit_balance
    (find (fun p => Profile.id p =? uid)%string (profiles db)).

End Store.

(** ** The settlement handler *)

(** [generateSettlementId]: [STL_<timestamp>_<random>] in upper case,
    the random part being the six characters after ["0."] of the
    base-36 rendering of [Math.random()]. *)
Definition generateSettlementId (env : Env) : string :=
  let timestamp := now env in
  let random := Js.substring 2 8 (random36 env) in
  Js.toUpperCase
    ("STL_" ++ Js.number_to_string timestamp ++ "_" ++ random).

Definition settlementPayload (formData : Form.t) (settlementId : string)
    : SettlementPayload.t :=
  SettlementPayload.mk
    settlementId
    (Form.userId formData)
    (Form.creditsUsed formData)
    (Form.rewardAmount formData)
    (Form.network formData)
    (Js.trim (Form.walletAddress formData))
    (Js.or_null (Js.trim (Form.transactionHash formData)))
    Status.processed
    (Js.or_null (Js.trim (Form.notes formData))).

Definition ledgerPayload (formData : Form.t) (selectedUser : User.t)
    (settlementId : string) (settlement : Settlement.t) : Ledger.t :=
  Ledger.mk
    (Form.userId formData)
    (- Form.creditsUsed formData)
    "settlement_debit"
    ("Digital Asset Reward Settlement - " ++ settlementId)
    (Settlement.id settlement)
    (User.credit_balance selectedUser - Form.creditsUsed formData).

Definition transferPayload (formData : Form.t) (settlementId : string)
    (settlement : Settlement.t) : Transfer.t :=
  Transfer.mk
    (Form.userId formData)
    (Settlement.id settlement)
    (Form.rewardAmount formData)
    (Form.network formData)
    (Js.trim (Form.walletAddress formData))
    (Js.or_null (Js.trim (Form.transactionHash formData)))
    TransferStatus.completed
    "settlement_reward"
    ("Digital Asset Reward Settlement - " ++ settlementId).

(** How a run of the handler ends, i.e. which [alert] the operator
    sees. *)
Inductive Outcome : Type :=
| NoUserSelected                       (* 'Please select a user' *)
| InsufficientCredits (balance : Z)    (* 'User has insufficient credits...' *)
| Recorded                             (* 'Settlement recorded successfully!' *)
| ErrorRecording (e : StoreError).     (* 'Error recording settlement: ...' *)

(** [users.find(u => u.id === formData.userId)] *)
Definition find_user (users : list User.t) (uid : string) : option User.t :=
  find (fun u => User.id u =? uid)%string users.

(** The four awaited writes that follow validation; any error is
    thrown to the [catch] of the handler. *)
Definition record_writes (formData : Form.t) (selectedUser : User.t)
    (env : Env) : M unit :=
  (let settlementId := generateSettlementId env in
   settlement <-
     Store.insert_settlement (faults env) (settlementId_unique env)
       (row_id env) (settlementPayload formData settlementId) ;;
   Store.insert_ledger (faults env)
     (ledgerPayload formData selectedUser settlementId settlement) ;;;
   Store.update_profile (faults env) (Form.userId formData)
     (User.credit_balance selectedUser - Form.creditsUsed formData)
     (iso_now env) ;;;
   Store.insert_transfer (faults env)
     (transferPayload formData settlementId settlement))%store.

(** [handleRecordSettlement], as a function of the page state it
    closes over ([users], [formData]), the outside world of this run and
    the store.  Loading the client module is taken to succeed.  The
    page-state updates around the writes (the [saving] flag, the form
    reset and the refetching of the lists after a recorded run) do not
    write to the store and are not part of the result. *)
Definition handleRecordSettlement (users : list User.t) (formData : Form.t)
    (env : Env) (db : DB) : DB * Outcome :=
  match find_user users (Form.userId formData) with
  | None => (db, NoUserSelected)
  | Some selectedUser =>
      if Form.creditsUsed formData >? User.credit_balance selectedUser then
        (db, InsufficientCredits (User.credit_balance selectedUser))
      else
        match record_writes formData selectedUser env db with
        | (db', inr tt) => (db', Recorded)
        | (db', inl error) => (db', ErrorRecording error)
        end
  end.

(** ** The handler as a sequence of awaited steps

    Between two awaited calls other handler runs (another operator's
    page, or a second submission) may reach the store.  [Pc] is the
    point a run has reached, with the local constants it holds there. *)

Record Request : Type := mkRequest
  { req_users : list User.t;
    req_form : Form.t;
    req_env : Env }.

Inductive Pc : Type :=
| AtValidate
| AtInsertSettlement (selectedUser : User.t)
| AtInsertLedger (selectedUser : User.t) (settlement : Settlement.t)
| AtUpdateProfile (selectedUser : User.t) (settlement : Settlement.t)
| AtInsertTransfer (selectedUser : User.t) (settlement : Settlement.t)
| Done (o : Outcome).

Definition step (r : Request) (pc : Pc) (db : DB) : DB * Pc :=
  let formData := req_form r in
  let env := req_env r in
  let settlementId := generateSettlementId env in
  match pc with
  | AtValidate =>
      match find_user (req_users r) (Form.userId formData) with
      | None => (db, Done NoUserSelected)
      | Some selectedUser =>
          if Form.creditsUsed formData >? User.credit_balance selectedUser
          then (db, Done (InsufficientCredits (User.credit_balance selectedUser)))
          else (db, AtInsertSettlement selectedUser)
      end
  | AtInsertSettlement selectedUser =>
      match Store.insert_settlement (faults env) (settlementId_unique env)
              (row_id env) (settlementPayload formData settlementId) db with
      | (db', inr settlement) => (db', AtInsertLedger selectedUser settlement)
      | (db', inl e) => (db', Done (ErrorRecording e))
      end
  | AtInsertLedger selectedUser settlement =>
      match Store.insert_ledger (faults env)
              (ledgerPayload formData selectedUser settlementId settlement)
              db with
      | (db', inr _) => (db', AtUpdateProfile selectedUser settlement)
      | (db', inl e) => (db', Done (ErrorRecording e))
      end
  | AtUpdateProfile selectedUser settlement =>
      match Store.update_profile (faults env) (Form.userId formData)
              (User.credit_balance selectedUser - Form.creditsUsed formData)
              (iso_now env) db with
      | (db', inr _) => (db', AtInsertTransfer selectedUser settlement)
      | (db', inl e) => (db', Done (ErrorRecording e))
      end
  | AtInsertTransfer selectedUser settlement =>
      match Store.insert_transfer (faults env)
              (transferPayload formData settlementId settlement) db with
      | (db', inr _) => (db', Done Recorded)
      | (db', inl e) => (db', Done (ErrorRecording e))
      end
  | Done o => (db, Done o)
  end.

Fixpoint run (n : nat) (r : Request) (pc : Pc) (db : DB) : DB * Pc :=
  match n with
  | O => (db, pc)
  | S n' => let '(db', pc') := step r pc db in run n' r pc' db'
  end.

(** Two runs in flight against one store; the schedule says which of
    them takes the next step ([true]: the first). *)
Fixpoint interleave (schedule : list bool) (r1 r2 : Request)
    (pc1 pc2 : Pc) (db : DB) : DB * Pc * Pc :=
  match schedule with
  | [] => (db, pc1, pc2)
  | true :: rest =>
      let '(db', pc1') := step r1 pc1 db in
      interleave rest r1 r2 pc1' pc2 db'
  | false :: rest =>
      let '(db', pc2') := step r2 pc2 db in
      interleave rest r1 r2 pc1 pc2' db'
  end.

(** Counting the rows that refer to a settlement row. *)
Definition ledger_refs (id : string) (db : DB) : nat :=
  List.length (filter (fun l => Ledger.reference_id l =? id)%string
                 (credit_ledger db)).

Definition transfer_refs (id : string) (db : DB) : nat :=
  List.length (filter (fun t => Transfer.settlementId t =? id)%string
                 (nila_transfers db)).

Definition processed_rows (db : DB) : list Settlement.t :=
  filter (fun s => match Settlement.status s with
                   | Status.processed => true
                   | _ => false
                   end) (settlements db).

(** ** The NILA rate lookup *)

Module NilaRate.

(** Numbers of the host language: rationals, with the three
    non-finite values ([JSON.parse] yields [Infinity] on overflow). *)
Inductive Number : Type :=
| NaN
| PosInfinity
| NegInfinity
| Finite (q : Q).

#[local] Unset Elimination Schemes.
Inductive Json : Type :=
| JNull
| JBool (b : bool)
| JNumber (n : Number)
| JString (s : string)
| JArray (items : list Json)
| JObject (fields : list (string * Json)).
#[local] Set Elimination Schemes.

(** [n > 0] *)
Definition gt_zero (n : Number) : bool :=
  match n with
  | Finite q => negb (Qle_bool q 0)
  | PosInfinity => true
  | NaN | NegInfinity => false
  end.

(** [n <= 0] *)
Definition le_zero (n : Number) : bool :=
  match n with
  | Finite q => Qle_bool q 0
  | NegInfinity => true
  | NaN | PosInfinity => false
  end.

(** Truthiness of a number: neither [0] nor [NaN]. *)
Definition truthy (n : Number) : bool :=
  match n with
  | Finite q => negb (Qeq_bool q 0)
  | NaN => false
  | PosInfinity | NegInfinity => true
  end.

(** Own property of a parsed object; a repeated key keeps its last
    value. *)
Fixpoint lookup (key : string) (fields : list (string * Json)) : option Json :=
  match fields with
  | [] => None
  | (k, v) :: rest =>
      match lookup key rest with
      | Some w => Some w
      | None => if (k =? key)%string then Some v else None
      end
  end.

(** [v?.key], with [None] for [undefined]: only objects carry the keys
    read here. *)
Definition get (v : option Json) (key : string) : option Json :=
  match v with
  | Some (JObject fields) => lookup key fields
  | _ => None
  end.

(** [typeof v === "number"] *)
Definition as_number (v : option Json) : option Number :=
  match v with
  | Some (JNumber n) => Some n
  | _ => None
  end.

Inductive Body : Type :=
| InvalidJson                 (* res.json() rejects *)
| Parsed (json : Json).

Record Response : Type := mkResponse
  { ok : bool;
    body : Body }.

Inductive FetchResult : Type :=
| NetworkError                (* fetch rejects *)
| Responded (res : Response).

Record Env : Type := mkEnv
  { VITE_NILA_RATE_ENDPOINT : option string;
    fetch : string -> FetchResult }.

Definition FALLBACK_RATE : Number := Finite (1234 # 100000).

Definition COINGECKO_URL : string :=
  "https://api.coingecko.com/api/v3/simple/price?ids=nila&vs_currencies=usd".

Inductive Exn : Type := Thrown.

(** [await res.json()] after [await fetch(url)], as far as it can
    throw. *)
Definition fetch_ok_json (env : Env) (url : string) : Exn + option Json :=
  match fetch env url with
  | NetworkError => inl Thrown
  | Responded res =>
      if ok res then
        match body res with
        | InvalidJson => inl Thrown
        | Parsed json => inr (Some json)
        end
      else inr None
  end.

(** Step 1 of [fetchNilaRate]: the configured backend endpoint.
    [Some rate] is the early [return rate]; the inner [catch] turns a
    throw into falling through. *)
Definition backend_proxy (env : Env) : option Number :=
  match VITE_NILA_RATE_ENDPOINT env with
  | None | Some EmptyString => None
  | Some backendEndpoint =>
      match fetch_ok_json env backendEndpoint with
      | inl Thrown => None
      | inr None => None
      | inr (Some json) =>
          match as_number (get (Some json) "nila") with
          | Some rate => if gt_zero rate then Some rate else None
          | None => None
          end
      end
  end.

(** Both shapes: [{ nila: { usd: 0.0123 } }] or [{ nila: 0.0123 }];
    [None] is the [null] of the source. *)
Definition extract_rate (json : Json) : option Number :=
  let nila := get (Some json) "nila" in
  match as_number nila with
  | Some n => Some n
  | None =>
      match as_number (get nila "usd") with
      | Some n => Some n
      | None => None
      end
  end.

(** Step 2: CoinGecko, then the fallback; throws go to the outer
    [catch]. *)
Definition coingecko (env : Env) : Exn + Number :=
  match fetch_ok_json env COINGECKO_URL with
  | inl e => inl e
  | inr None => inr FALLBACK_RATE
  | inr (Some json) =>
      match extract_rate json with
      | Some rate =>
          if truthy rate && gt_zero rate then inr rate else inr FALLBACK_RATE
      | None => inr FALLBACK_RATE
      end
  end.

Definition fetchNilaRate (env : Env) : Number :=
  match backend_proxy env with
  | Some rate => rate
  | None =>
      match coingecko env with
      | inr rate => rate
      | inl Thrown => FALLBACK_RATE
      end
  end.

(** *** The [nila-rate] edge function *)

Record HttpResponse : Type := mkHttp
  { http_status : Z;
    http_body : Body }.

(** [JSON.stringify] of a number as the client parses it back:
    non-finite numbers are written as [null]. *)
Definition stringify_number (n : Number) : Json :=
  match n with
  | Finite q => JNumber (Finite q)
  | _ => JNull
  end.

Definition nila_json (v : Json) : HttpResponse :=
  mkHttp 200 (Parsed (JObject [("nila", v)])).

Definition fallback_response : HttpResponse :=
  nila_json (JNumber (Finite (1234 # 100000))).

(** The handler given to [serve]: [method] is [req.method], [upstream]
    what its own [fetch] of CoinGecko gives. *)
Definition serve_handler (method : string) (upstream : FetchResult)
    : HttpResponse :=
  if negb (method =? "GET")%string then
    mkHttp 405 InvalidJson      (* plain text 'Method not allowed' *)
  else
    match upstream with
    | NetworkError => fallback_response
    | Responded response =>
        if negb (ok response) then fallback_response
        else
          match body response with
          | InvalidJson => fallback_response
          | Parsed json =>
              match extract_rate json with
              | None => fallback_response
              | Some rate =>
                  if negb (truthy rate) || le_zero rate
                  then fallback_response
                  else nila_json (stringify_number rate)
              end
          end
    end.

(** What a client's [fetch] makes of a handler response. *)
Definition as_fetched (r : HttpResponse) : FetchResult :=
  Responded (mkResponse ((200 <=? http_status r) && (http_status r <=? 299))
                        (http_body r)).

(** *** Valid positive rates *)

Definition positive (n : Number) : Prop :=
  match n with
  | Finite q => (0 < q)%Q
  | PosInfinity => True
  | NaN | NegInfinity => False
  end.

(** A source answers with a rate: the request succeeds with an ok
    response whose body parses to an object carrying the number, either
    directly under [nila] or under [nila.usd]. *)
Inductive answers : FetchResult -> Number -> Prop :=
| answers_direct fields n :
    lookup "nila" fields = Some (JNumber n) ->
    answers (Responded (mkResponse true (Parsed (JObject fields)))) n
| answers_nested fields inner n :
    lookup "nila" fields = Some (JObject inner) ->
    lookup "usd" inner = Some (JNumber n) ->
    answers (Responded (mkResponse true (Parsed (JObject fields)))) n.

(** The backend proxy produces a valid rate: it is configured and
    answers directly with a positive number. *)
Definition proxy_produces (env : Env) (n : Number) : Prop :=
  exists url fields,
    VITE_NILA_RATE_ENDPOINT env = Some url /\ url <> "" /\
    fetch env url = Responded (mkResponse true (Parsed (JObject fields))) /\
    lookup "nila" fields = Some (JNumber n) /\ positive n.

Definition coingecko_produces (env : Env) (n : Number) : Prop :=
  answers (fetch env COINGECKO_URL) n /\ positive n.

End NilaRate.


(** ** The store along one run of the handler *)

Section RunStates.

Variables (formData : Form.t) (env : Env).

Let uid := Form.userId formData.
Let C := Form.creditsUsed formData.
Let sid := generateSettlementId env.

(** The row the store returns for this run's insert. *)
Definition new_row : Settlement.t :=
  Settlement.mk (row_id env) (settlementPayload formData sid).

(** The store after each successive write of this run. *)
Definition after_settlement (db : DB) : DB :=
  mkDB (settlements db ++ [new_row]) (credit_ledger db)
       (profiles db) (nila_transfers db).

Definition after_ledger (u : User.t) (db : DB) : DB :=
  mkDB (settlements db ++ [new_row])
       (credit_ledger db ++ [ledgerPayload formData u sid new_row])
       (profiles db) (nila_transfers db).

Definition after_update (u : User.t) (db : DB) : DB :=
  mkDB (settlements db ++ [new_row])
       (credit_ledger db ++ [ledgerPayload formData u sid new_row])
       (map (Store.set_balance uid (User.credit_balance u - C) (iso_now env))
            (profiles db))
       (nila_transfers db).

Definition after_transfer (u : User.t) (db : DB) : DB :=
  mkDB (settlements db ++ [new_row])
       (credit_ledger db ++ [ledgerPayload formData u sid new_row])
       (map (Store.set_balance uid (User.credit_balance u - C) (iso_now env))
            (profiles db))
       (nila_transfers db ++ [transferPayload formData sid new_row]).

(** Every way [record_writes] can end, by the first write the store
    refuses. *)
Inductive writes_result (u : User.t) (db : DB)
  : DB * (StoreError + unit) -> Prop :=
| wr_settlement_fault :
    fail_settlements_insert (faults env) = true ->
    writes_result u db (db, inl (WriteFault "settlements"))
| wr_duplicate :
    fail_settlements_insert (faults env) = false ->
    Store.refuses (settlementId_unique env) sid db = true ->
    writes_result u db (db, inl (UniqueViolation "settlements" "settlementId"))
| wr_ledger_fault :
    fail_settlements_insert (faults env) = false ->
    Store.refuses (settlementId_unique env) sid db = false ->
    fail_credit_ledger_insert (faults env) = true ->
    writes_result u db (after_settlement db, inl (WriteFault "credit_ledger"))
| wr_update_fault :
    fail_settlements_insert (faults env) = false ->
    Store.refuses (settlementId_unique env) sid db = false ->
    fail_credit_ledger_insert (faults env) = false ->
    fail_profiles_update (faults env) = true ->
    writes_result u db (after_ledger u db, inl (WriteFault "profiles"))
| wr_transfer_fault :
    fail_settlements_insert (faults env) = false ->
    Store.refuses (settlementId_unique env) sid db = false ->
    fail_credit_ledger_insert (faults env) = false ->
    fail_profiles_update (faults env) = false ->
    fail_nila_transfers_insert (faults env) = true ->
    writes_result u db (after_update u db, inl (WriteFault "nila_transfers"))
| wr_recorded :
    fail_settlements_insert (faults env) = false ->
    Store.refuses (settlementId_unique env) sid db = false ->
    fail_credit_ledger_insert (faults env) = false ->
    fail_profiles_update (faults env) = false ->
    fail_nila_transfers_insert (faults env) = false ->
    writes_result u db (after_transfer u db, inr tt).

End RunStates.

(** ** Reference scenarios *)

Module Scenario.

Definition user (balance : Z) : User.t :=
  User.mk "user-1" "Ada" "ada@example.org" balance.

Definition profile (balance : Z) : Profile.t :=
  Profile.mk "user-1" "Ada" "ada@example.org" balance
             "2024-05-01T09:00:00.000Z".

Definition form (credits : Z) : Form.t :=
  Form.mk "user-1" credits 10 "polygon" "0xabc" "" "".

Definition db (balance : Z) : DB := mkDB [] [] [profile balance] [].

Definition env (f : Faults) : Env :=
  mkEnv 1714554000000 "0.4fzyo82mvyr" "row-1" "2024-05-01T09:10:00.000Z"
        true f.

(** A second run: later clock, other random digits, next row id. *)
Definition env2 (f : Faults) : Env :=
  mkEnv 1714554000750 "0.k2j9x1ab7q" "row-2" "2024-05-01T09:10:01.000Z"
        true f.

Definition ledger_fault : Faults := mkFaults false true false false.

End Scenario.

Definition request (balance credits : Z) (f : Faults) : Request :=
  mkRequest [Scenario.user balance] (Scenario.form credits) (Scenario.env f).

(** ** Progress of an unhindered run

    [pc_at r u k] is the point a run of [r] with selected user [u] has
    reached after [k] steps when nothing stops it, and [write_at r u k]
    the write its step number [k] performs. *)

Definition pc_at (r : Request) (u : User.t) (k : nat) : Pc :=
  let row := new_row (req_form r) (req_env r) in
  match k with
  | 0 => AtValidate
  | 1 => AtInsertSettlement u
  | 2 => AtInsertLedger u row
  | 3 => AtUpdateProfile u row
  | 4 => AtInsertTransfer u row
  | _ => Done Recorded
  end%nat.

Definition write_at (r : Request) (u : User.t) (k : nat) (db : DB) : DB :=
  let formData := req_form r in
  let env := req_env r in
  let sid := generateSettlementId env in
  let row := new_row formData env in
  match k with
  | 1 => mkDB (settlements db ++ [row]) (credit_ledger db)
              (profiles db) (nila_transfers db)
  | 2 => mkDB (settlements db)
              (credit_ledger db ++ [ledgerPayload formData u sid row])
              (profiles db) (nila_transfers db)
  | 3 => mkDB (settlements db) (credit_ledger db)
              (map (Store.set_balance (Form.userId formData)
                      (User.credit_balance u - Form.creditsUsed formData)
                      (iso_now env))
                   (profiles db))
              (nila_transfers db)
  | 4 => mkDB (settlements db) (credit_ledger db) (profiles db)
              (nila_transfers db ++ [transferPayload formData sid row])
  | _ => db
  end%nat.

(** A request that passes validation with user [u] and meets no store
    fault. *)
Definition unhindered (r : Request) (u : User.t) : Prop :=
  find_user (req_users r) (Form.userId (req_form r)) = Some u
  /\ Form.creditsUsed (req_form r) <= User.credit_balance u
  /\ faults (req_env r) = no_faults.

(** The rows of the run of [r] that the store holds once the run is
    [k] steps in. *)
Definition own_rows (r : Request) (u : User.t) (k : nat) (db : DB) : Prop :=
  let formData := req_form r in
  let env := req_env r in
  let sid := generateSettlementId env in
  let row := new_row formData env in
  Store.has_settlementId sid db = (2 <=? k)%nat
  /\ ((2 <= k)%nat -> In row (settlements db))
  /\ ((3 <= k)%nat -> In (ledgerPayload formData u sid row) (credit_ledger db))
  /\ ((5 <= k)%nat ->
       In (transferPayload formData sid row) (nila_transfers db)).

(** The profile rows keep their ids, and once some balance update has
    run ([written]) every row of user [uid] holds an [allowed] value. *)
Definition balances_within (allowed : Z -> Prop) (uid : string) (db0 : DB)
    (written : Prop) (db : DB) : Prop :=
  map Profile.id (profiles db) = map Profile.id (profiles db0)
  /\ (written ->
       forall p, In p (profiles db) -> Profile.id p = uid ->
                 allowed (Profile.credit_balance p)).

(** The schedule in which two runs take turns until both are done. *)
Definition alternating : list bool :=
  [true; false; true; false; true; false; true; false; true; false].

(** ** Statements under test

    Properties of the written design that are checked against the
    handler below. *)

Module Claimed.

(** A run that created its settlement row and then failed leaves that
    row with status failed. *)
Definition failure_marks_settlement_failed : Prop :=
  forall users formData env db db' e row,
    handleRecordSettlement users formData env db = (db', ErrorRecording e) ->
    settlements db' = settlements db ++ [row] ->
    Settlement.status row = Status.failed.

(** The row is created pending, and is not processed at any point of a
    run at which the downstream writes are not all done. *)
Definition pending_until_all_written : Prop :=
  forall n r db db' pc row,
    run n r AtValidate db = (db', pc) ->
    settlements db' = settlements db ++ [row] ->
    (forall u s, pc = AtInsertLedger u s ->
                 Settlement.status row = Status.pending)
    /\ (pc <> Done Recorded -> Settlement.status row <> Status.processed).

(** Every processed settlement a run leaves behind is referred to by
    exactly one ledger entry and exactly one transfer; [key] is the
    field of the settlement the references are compared with. *)
Definition processed_is_referenced_once (key : Settlement.t -> string)
    : Prop :=
  forall users formData env db db' o row,
    handleRecordSettlement users formData env db = (db', o) ->
    credit_ledger db = [] -> nila_transfers db = [] ->
    settlements db' = settlements db ++ [row] ->
    Settlement.status row = Status.processed ->
    ledger_refs (key row) db' = 1%nat /\ transfer_refs (key row) db' = 1%nat.

(** Two runs for the same user, both holding the stored balance in
    their cache, whose credits together exceed it: whatever the
    schedule, exactly one of them is recorded. *)
Definition one_of_two_succeeds : Prop :=
  forall schedule r1 r2 db db' o1 o2 u B,
    Form.userId (req_form r1) = User.id u ->
    Form.userId (req_form r2) = User.id u ->
    find_user (req_users r1) (User.id u) = Some u ->
    find_user (req_users r2) (User.id u) = Some u ->
    User.credit_balance u = B ->
    Store.stored_balance (User.id u) db = Some B ->
    Form.creditsUsed (req_form r1) + Form.creditsUsed (req_form r2) > B ->
    interleave schedule r1 r2 AtValidate AtValidate db
    = (db', Done o1, Done o2) ->
    (o1 = Recorded /\ o2 <> Recorded) \/ (o1 <> Recorded /\ o2 = Recorded).

(** A request for more credits than the store holds for the user is
    turned away and leaves the store as it was. *)
Definition exceeding_stored_balance_is_rejected : Prop :=
  forall users formData env db b,
    Store.stored_balance (Form.userId formData) db = Some b ->
    Form.creditsUsed formData > b ->
    exists o,
      handleRecordSettlement users formData env db = (db, o)
      /\ o <> Recorded.

(** A recorded run debits the balance the store holds for the user. *)
Definition recorded_run_debits_stored_balance : Prop :=
  forall users formData env db db' b,
    Store.stored_balance (Form.userId formData) db = Some b ->
    Form.creditsUsed formData <= b ->
    handleRecordSettlement users formData env db = (db', Recorded) ->
    exists entry,
      credit_ledger db' = credit_ledger db ++ [entry]
      /\ Ledger.amount entry = - Form.creditsUsed formData
      /\ Ledger.balance_after entry = b - Form.creditsUsed formData
      /\ Store.stored_balance (Form.userId formData) db'
         = Some (b - Form.creditsUsed formData).

(** A request for exactly the balance the store holds for the user is
    recorded, when no write fails and the settlement id is new. *)
Definition exact_stored_balance_is_accepted : Prop :=
  forall users formData env db b,
    Store.stored_balance (Form.userId formData) db = Some b ->
    Form.creditsUsed formData = b ->
    faults env = no_faults ->
    Store.has_settlementId (generateSettlementId env) db = false ->
    exists db',
      handleRecordSettlement users formData env db = (db', Recorded).

(** The same form submitted twice, to a store that refuses a repeated
    settlementId, appends at most one ledger entry and one transfer. *)
Definition resubmission_debits_once : Prop :=
  forall users1 users2 formData env1 env2 db db1 db2 o1 o2,
    settlementId_unique env1 = true ->
    settlementId_unique env2 = true ->
    handleRecordSettlement users1 formData env1 db = (db1, o1) ->
    handleRecordSettlement users2 formData env2 db1 = (db2, o2) ->
    (List.length (credit_ledger db2)
     <= S (List.length (credit_ledger db)))%nat
    /\ (List.length (nila_transfers db2)
        <= S (List.length (nila_transfers db)))%nat.

(** Two runs with the same settlement id append at most one ledger
    entry and one transfer between them. *)
Definition replay_debits_once : Prop :=
  forall users1 form1 env1 users2 form2 env2 db db1 db2 o1 o2,
    generateSettlementId env1 = generateSettlementId env2 ->
    handleRecordSettlement users1 form1 env1 db = (db1, o1) ->
    handleRecordSettlement users2 form2 env2 db1 = (db2, o2) ->
    (List.length (credit_ledger db2)
     <= S (List.length (credit_ledger db)))%nat
    /\ (List.length (nila_transfers db2)
        <= S (List.length (nila_transfers db)))%nat.

End Claimed.

(** The points of a run that come after the settlement insert has been
    attempted. *)
Definition past_insert (pc : Pc) : bool :=
  match pc with
  | AtValidate | AtInsertSettlement _ => false
  | _ => true
  end.

(** The request passes validation with user [u] and its settlement
    insert is accepted by the store [db]. *)
Definition inserts_row (r : Request) (u : User.t) (db : DB) : Prop :=
  find_user (req_users r) (Form.userId (req_form r)) = Some u
  /\ Form.creditsUsed (req_form r) <= User.credit_balance u
  /\ fail_settlements_insert (faults (req_env r)) = false
  /\ Store.refuses (settlementId_unique (req_env r))
       (generateSettlementId (req_env r)) db = false.

(** Scenario stores and a second clock reading for a re-submission. *)
Definition stale_cache : list User.t := [Scenario.user 500].

Definition resubmitted (unique : bool) : Env :=
  mkEnv 1714554003200 "0.9hq2m7c1xk" "row-2" "2024-05-01T09:10:03.200Z"
        unique no_faults.

Definition collided (unique : bool) (row : string) : Env :=
  mkEnv 1714554000000 "0.4fzyo82mvyr" row "2024-05-01T09:10:00.000Z"
        unique no_faults.


(** ** The rest of the settlement page *)

(** [handleUserSelect]: choosing a user in the form.  For a user of the
    cached list the credits already typed are cut down to that user's
    balance. *)
Definition handleUserSelect (users : list User.t) (userId : string)
    (prev : Form.t) : Form.t :=
  match find_user users userId with
  | Some selectedUser =>
      Form.mk userId
        (Z.min (Form.creditsUsed prev) (User.credit_balance selectedUser))
        (Form.rewardAmount prev) (Form.network prev)
        (Form.walletAddress prev) (Form.transactionHash prev)
        (Form.notes prev)
  | None =>
      Form.mk userId (Form.creditsUsed prev)
        (Form.rewardAmount prev) (Form.network prev)
        (Form.walletAddress prev) (Form.transactionHash prev)
        (Form.notes prev)
  end.

(** The [disabled] attribute of the submit button:
    [saving || (selectedUser && balance - creditsUsed < 0)]. *)
Definition submit_disabled (saving : bool) (users : list User.t)
    (formData : Form.t) : bool :=
  saving
  || match find_user users (Form.userId formData) with
     | Some selectedUser =>
         User.credit_balance selectedUser - Form.creditsUsed formData <? 0
     | None => false
     end.

(** The "Credit Balance After" line of the preview, and whether the
    insufficient-credits warning is shown under it. *)
Definition preview_balance_after (users : list User.t) (formData : Form.t)
    : Z :=
  match find_user users (Form.userId formData) with
  | Some selectedUser => User.credit_balance selectedUser
  | None => 0
  end - Form.creditsUsed formData.

Definition preview_warning (users : list User.t) (formData : Form.t) : bool :=
  preview_balance_after users formData <? 0.

(** The columns [fetchUsers] selects from a profile row. *)
Definition to_user (p : Profile.t) : User.t :=
  User.mk (Profile.id p) (Profile.full_name p) (Profile.email p)
          (Profile.credit_balance p).

(** [users] is what a successful [fetchUsers] puts in the page state:
    the selected columns of every profile row, in the order the store
    sorts them by name. *)
Definition fetched_users (db : DB) (users : list User.t) : Prop :=
  Permutation users (map to_user (profiles db)).

(** Summary cards: [settlements.length] and
    [settlements.reduce((sum, s) => sum + s.creditsUsed, 0)]. *)
Definition total_settlements (shown : list Settlement.t) : nat :=
  List.length shown.

Definition total_credits_used (shown : list Settlement.t) : Z :=
  fold_left (fun sum s => sum + Settlement.creditsUsed s) shown 0.

(** The [settlements] list of the page after a run.  The handler
    refetches it only after a recorded run; [fetched] is what that
    [fetchSettlements] receives, [None] when it fails and leaves the
    list alone.  After any other run the list is as it was. *)
Definition shown_after_run (o : Outcome)
    (fetched : option (list Settlement.t)) (shown : list Settlement.t)
    : list Settlement.t :=
  match o with
  | Recorded =>
      match fetched with
      | Some data => data
      | None => shown
      end
  | _ => shown
  end.

(** Strings of characters below 128, on which the white space and the
    letters of the host language are the ASCII ones. *)
Definition is_ascii_char (c : ascii) : bool := (nat_of_ascii c <? 128)%nat.

(** Characters and blank strings. *)
Fixpoint all_chars (f : ascii -> bool) (s : string) : bool :=
  match s with
  | EmptyString => true
  | String c s' => f c && all_chars f s'
  end.

Definition is_blank (s : string) : bool := all_chars Js.is_space s.

Definition ascii_only (s : string) : bool := all_chars is_ascii_char s.

Definition is_digit (c : ascii) : bool :=
  let n := nat_of_ascii c in ((48 <=? n) && (n <=? 57))%nat.

Definition is_lower (c : ascii) : bool :=
  let n := nat_of_ascii c in ((97 <=? n) && (n <=? 122))%nat.

Definition is_upper (c : ascii) : bool :=
  let n := nat_of_ascii c in ((65 <=? n) && (n <=? 90))%nat.

(** ** The rate lookup: the Express route and the page hook *)

Module RateClients.

Import NilaRate.

Definition error_response : HttpResponse :=
  mkHttp 500
    (Parsed (JObject [("error", JString "Failed to fetch NILA rate")])).

(** The [GET /] handler of the Express router: as the edge function,
    but with a single [try]: a rejected request or an unreadable body
    ends in the [catch], which answers 500. *)
Definition express_route (upstream : FetchResult) : HttpResponse :=
  match upstream with
  | NetworkError => error_response
  | Responded response =>
      if negb (ok response) then fallback_response
      else
        match body response with
        | InvalidJson => error_response
        | Parsed json =>
            match extract_rate json with
            | None => fallback_response
            | Some rate =>
                if negb (truthy rate) || le_zero rate
                then fallback_response
                else nila_json (stringify_number rate)
            end
        end
  end.

(** The upstream request gives the route something to read: it
    responded, and with a body that parses unless the response is not
    ok (in which case the body is not read). *)
Definition readable (upstream : FetchResult) : bool :=
  match upstream with
  | NetworkError => false
  | Responded response =>
      negb (ok response)
      || match body response with
         | InvalidJson => false
         | Parsed _ => true
         end
  end.

(** State of [useNilaRate]. *)
Record HookState : Type := mkHook
  { rate : Number;
    loading : bool;
    error : option string }.

Definition hook_initial : HookState := mkHook FALLBACK_RATE false None.

(** [loadRate] up to its [await], and from the settled
    [fetchNilaRate()] on; several loads (the mount effect, the
    ten-minute interval, the refresh button) may overlap. *)
Definition load_starts (st : HookState) : HookState :=
  mkHook (rate st) true None.

Definition load_ends (fetched : Exn + Number) (st : HookState) : HookState :=
  match fetched with
  | inr newRate => mkHook newRate false (error st)
  | inl Thrown =>
      mkHook FALLBACK_RATE false
             (Some "Failed to fetch $NILA rate — using fallback.")
  end.

Inductive HookEvent : Type :=
| LoadStarts
| LoadEnds (env : Env).

Definition hook_step (st : HookState) (ev : HookEvent) : HookState :=
  match ev with
  | LoadStarts => load_starts st
  | LoadEnds env => load_ends (inr (fetchNilaRate env)) st
  end.

Definition hook_after (events : list HookEvent) : HookState :=
  fold_left hook_step events hook_initial.

(** What the credit pack modal makes of the hook state: the read-only
    rate field, and whether the saved pack gets a [nila_equivalent]
    (rather than [null]). *)
Inductive RateField : Type :=
| ShowLoading
| ShowRate (n : Number)
| ShowFailed.

Definition rate_field (st : HookState) : RateField :=
  if loading st then ShowLoading
  else if truthy (rate st) then ShowRate (rate st)
  else ShowFailed.

Definition saves_nila_equivalent (st : HookState) : bool :=
  truthy (rate st) && gt_zero (rate st).

End RateClients.

(** Neither a dot nor an upper-case letter; not a dot. *)
Definition plain_char (c : ascii) : bool :=
  negb (Ascii.eqb c "."%char) && negb (is_upper c).

Definition no_dot (c : ascii) : bool := negb (Ascii.eqb c "."%char).

(** ** Image URLs, slugs and uploads of the credit pack modal

    Strings are taken as ASCII: case conversion and the character
    classes below act on the letters [a-z] and [A-Z] only. *)

Definition lower_char (c : ascii) : ascii :=
  if is_upper c then ascii_of_nat (nat_of_ascii c + 32) else c.

Fixpoint toLowerCase (s : string) : string :=
  match s with
  | EmptyString => EmptyString
  | String c s' => String (lower_char c) (toLowerCase s')
  end.

Module ImageUrl.

Definition PLACEHOLDER_PACK_IMAGE : string := "/images/default-pack.png".
Definition PLACEHOLDER_CATEGORY_IMAGE : string :=
  "/images/default-category.png".

(** [url] is [None] for [null] and [undefined]. *)
Definition getCreditPackImageUrl (url : option string) : string :=
  match url with
  | None => PLACEHOLDER_PACK_IMAGE
  | Some u =>
      if (u =? "")%string || (Js.trim u =? "")%string
      then PLACEHOLDER_PACK_IMAGE
      else u
  end.

Definition getCategoryIconUrl (url : option string) : string :=
  match url with
  | None => PLACEHOLDER_CATEGORY_IMAGE
  | Some u =>
      if (u =? "")%string || (Js.trim u =? "")%string
      then PLACEHOLDER_CATEGORY_IMAGE
      else u
  end.

End ImageUrl.

Module Slug.

(** [[a-z0-9]] *)
Definition is_slug_char (c : ascii) : bool := is_lower c || is_digit c.

Definition dash : ascii := "-"%char.

(** [.replace(/[^a-z0-9]+/g, "-")]: every maximal run of other
    characters becomes one dash; [in_run] says that the run the
    current character belongs to has already been replaced. *)
Fixpoint collapse (in_run : bool) (s : string) : string :=
  match s with
  | EmptyString => EmptyString
  | String c s' =>
      if is_slug_char c then String c (collapse false s')
      else if in_run then collapse true s'
      else String dash (collapse true s')
  end.

Fixpoint drop_last_dash (s : string) : string :=
  match s with
  | EmptyString => EmptyString
  | String c EmptyString =>
      if Ascii.eqb c dash then EmptyString else s
  | String c s' => String c (drop_last_dash s')
  end.

Definition drop_first_dash (s : string) : string :=
  match s with
  | String c s' => if Ascii.eqb c dash then s' else s
  | EmptyString => EmptyString
  end.

(** [.replace(/(^-|-$)+/g, "")]: a dash at the very start and a dash
    at the very end are removed. *)
Definition strip_dashes (s : string) : string :=
  drop_last_dash (drop_first_dash s).

(** The slug of the credit pack form ([handleSubmit]) and
    [generateSlug] of the categories page. *)
Definition generateSlug (name : string) : string :=
  strip_dashes (collapse false (toLowerCase name)).

(** A string of [[a-z0-9]] groups separated by single dashes. *)
Fixpoint well_formed_from (after_dash : bool) (s : string) : bool :=
  match s with
  | EmptyString => negb after_dash
  | String c s' =>
      if is_slug_char c then well_formed_from false s'
      else Ascii.eqb c dash && negb after_dash && well_formed_from true s'
  end.

Definition well_formed (s : string) : bool :=
  match s with
  | EmptyString => true
  | _ => well_formed_from true s
  end.

(** Single dashes between characters of [[a-z0-9]], possibly at either
    end: what the first replacement leaves. *)
Fixpoint loose_from (after_dash : bool) (s : string) : bool :=
  match s with
  | EmptyString => true
  | String c s' =>
      if is_slug_char c then loose_from false s'
      else Ascii.eqb c dash && negb after_dash && loose_from true s'
  end.

Definition is_alnum (c : ascii) : bool :=
  is_lower c || is_upper c || is_digit c.

End Slug.

Module PackModal.

(** [handleCategoryChange] on the selected category ids. *)
Definition handleCategoryChange (categoryId : string) (checked : bool)
    (prev : list string) : list string :=
  if checked then prev ++ [categoryId]
  else filter (fun id => negb (id =? categoryId)%string) prev.

End PackModal.

(** ** Uploading a credit pack image *)

Module Upload.

Record File : Type := mkFile
  { name : string;
    size : Z;
    type : string }.

(** How [storage.upload(path, file, ...)] settles. *)
Inductive StorageAnswer : Type :=
| UploadThrows
| UploadFails (message : option string)    (* { error }, its message if any *)
| UploadStored.

Record Env : Type := mkEnv
  { getSession : option bool;    (* [None]: rejects; else whether a session exists *)
    now : N;                     (* Date.now() *)
    random36 : string;           (* Math.random().toString(36) *)
    upload : string -> File -> StorageAnswer;
    getPublicUrl : string -> option string }.   (* urlData?.publicUrl *)

Record UploadResult : Type := mkResult
  { url : option string;
    error : option string }.

Definition CREDIT_PACK_FOLDER : string := "credit-packs".

Definition allowedTypes : list string :=
  ["image/jpeg"; "image/png"; "image/gif"; "image/webp"].

(** [hay.includes(needle)] *)
Fixpoint includes (needle hay : string) : bool :=
  String.prefix needle hay
  || match hay with
     | EmptyString => false
     | String _ hay' => includes needle hay'
     end.

(** [name.split('.').pop()]: what follows the last dot, the whole name
    when there is none. *)
Fixpoint last_segment (acc s : string) : string :=
  match s with
  | EmptyString => acc
  | String c s' =>
      if Ascii.eqb c "."%char then last_segment "" s'
      else last_segment (acc ++ String c "")%string s'
  end.

Definition fileExt (fileName : string) : string :=
  match toLowerCase (last_segment "" fileName) with
  | EmptyString => "jpg"
  | ext => ext
  end.

Definition uploadPath (env : Env) (file : File) : string :=
  let timestamp := now env in
  let randomString := Js.substring 2 15 (random36 env) in
  let filename :=
    (Js.number_to_string timestamp ++ "-" ++ randomString ++ "."
       ++ fileExt (name file))%string in
  (CREDIT_PACK_FOLDER ++ "/" ++ filename)%string.

Definition failure (message : string) : UploadResult :=
  mkResult None (Some message).

Definition errorMessage (message : option string) : string :=
  match message with
  | None => "Upload failed"
  | Some m =>
      if includes "authenticated" m then
        "Authentication error. Please try logging out and back in."
      else if includes "storage.objects.insert" m then
        "Permission denied. You may not have upload permissions."
      else if includes "size" m then
        "File too large. Maximum size is 5MB."
      else "Upload failed"
  end.

(** [uploadCreditPackImage]; the second component lists the paths
    handed to [storage.upload]. *)
Definition uploadCreditPackImage (env : Env) (file : File)
    : UploadResult * list string :=
  match getSession env with
  | None =>
      (failure "An unexpected error occurred. Please try again.", [])
  | Some false => (failure "User not authenticated. Please log in.", [])
  | Some true =>
      if size file >? 5 * 1024 * 1024 then
        (failure "File size exceeds 5MB limit.", [])
      else if negb (existsb (String.eqb (type file)) allowedTypes) then
        (failure
           "Invalid file type. Only JPG, PNG, GIF, and WebP are allowed.",
         [])
      else
        let path := uploadPath env file in
        match upload env path file with
        | UploadThrows =>
            (failure "An unexpected error occurred. Please try again.",
             [path])
        | UploadFails message => (failure (errorMessage message), [path])
        | UploadStored =>
            match getPublicUrl env path with
            | None | Some EmptyString =>
                (failure "Failed to generate public URL for uploaded image.",
                 [path])
            | Some publicUrl => (mkResult (Some publicUrl) None, [path])
            end
        end
  end.

(** [uploadCreditPackImageSimple] *)
Definition uploadCreditPackImageSimple (env : Env) (file : File)
    : option string :=
  url (fst (uploadCreditPackImage env file)).

(** The image part of the modal state and its [handleFileUpload];
    [file] is [e.target.files?.[0]]. *)
Record ImageState : Type := mkImage
  { featuredImageUrl : option string;
    imageUploading : bool;
    imageError : option string }.

Definition handleFileUpload (env : Env) (file : option File)
    (st : ImageState) : ImageState :=
  match file with
  | None => st
  | Some f =>
      let result := fst (uploadCreditPackImage env f) in
      match error result with
      | Some (String c m) =>
          mkImage (featuredImageUrl st) false (Some (String c m))
      | _ =>
          match url result with
          | Some (String c u) => mkImage (Some (String c u)) false None
          | _ =>
              mkImage (featuredImageUrl st) false
                (Some "Upload completed but no URL returned. Please try again.")
          end
      end
  end.

End Upload.

(** * Properties of the settlement handler *)

(** ** The generated identifier and the trimmed fields *)

Example generateSettlementId_scenario :
  generateSettlementId (Scenario.env no_faults) = "STL_1714554000000_4FZYO8".
Proof. reflexivity. Qed.

Example generateSettlementId_short_random :
  generateSettlementId
    (mkEnv 1714554000000 "0.i" "row-1" "2024-05-01T09:10:00.000Z" true
           no_faults)
  = "STL_1714554000000_I".
Proof. reflexivity. Qed.

Example trim_wallet : Js.trim "  0xabc 	" = "0xabc".
Proof. reflexivity. Qed.

Example blank_hash_is_null : Js.or_null (Js.trim "   ") = None.
Proof. reflexivity. Qed.

(** The ledger entry and the transfer refer to the row id the store
    assigned, and carry the generated identifier in their text. *)
Example scenario_A_references :
  let env := Scenario.env no_faults in
  let row := new_row (Scenario.form 200) env in
  let sid := generateSettlementId env in
  Ledger.reference_id (ledgerPayload (Scenario.form 200) (Scenario.user 500)
                         sid row) = "row-1"
  /\ Transfer.settlementId (transferPayload (Scenario.form 200) sid row)
     = "row-1"
  /\ Ledger.description (ledgerPayload (Scenario.form 200) (Scenario.user 500)
                           sid row)
     = "Digital Asset Reward Settlement - STL_1714554000000_4FZYO8".
Proof. repeat split. Qed.

Section HandlerFacts.

Variables (users : list User.t) (formData : Form.t) (env : Env).

Let uid := Form.userId formData.
Let C := Form.creditsUsed formData.
Let sid := generateSettlementId env.

#[local] Abbreviation new_row := (new_row formData env).
#[local] Abbreviation after_settlement := (after_settlement formData env).
#[local] Abbreviation after_ledger := (after_ledger formData env).
#[local] Abbreviation after_update := (after_update formData env).
#[local] Abbreviation after_transfer := (after_transfer formData env).
#[local] Abbreviation writes_result := (writes_result formData env).

Lemma new_row_processed : Settlement.status new_row = Status.processed.
Proof. reflexivity. Qed.

Lemma new_row_settlementId : Settlement.settlementId new_row = sid.
Proof. reflexivity. Qed.

(** Rejections of the validation phase never touch the store. *)
Lemma no_user_no_write db :
  find_user users uid = None ->
  handleRecordSettlement users formData env db = (db, NoUserSelected).
Proof.
  intros Hf. unfold handleRecordSettlement. fold uid. now rewrite Hf.
Qed.

Lemma insufficient_no_write db u :
  find_user users uid = Some u ->
  C > User.credit_balance u ->
  handleRecordSettlement users formData env db
  = (db, InsufficientCredits (User.credit_balance u)).
Proof.
  intros Hf Hgt. unfold handleRecordSettlement. fold uid C. rewrite Hf.
  destruct (Z.gtb_spec C (User.credit_balance u)); [reflexivity | lia].
Qed.

(** Past validation the handler is exactly [record_writes]. *)
Lemma validated_runs_writes db u :
  find_user users uid = Some u ->
  C <= User.credit_balance u ->
  handleRecordSettlement users formData env db
  = match record_writes formData u env db with
    | (db', inr tt) => (db', Recorded)
    | (db', inl error) => (db', ErrorRecording error)
    end.
Proof.
  intros Hf Hle. unfold handleRecordSettlement. fold uid C. rewrite Hf.
  destruct (Z.gtb_spec C (User.credit_balance u)); [lia | reflexivity].
Qed.

Lemma record_writes_result u db :
  writes_result u db (record_writes formData u env db).
Proof.
  unfold record_writes, bind, Store.insert_settlement, Store.insert_ledger,
    Store.update_profile, Store.insert_transfer.
  fold sid.
  change (SettlementPayload.settlementId (settlementPayload formData sid))
    with sid.
  destruct (fail_settlements_insert (faults env)) eqn:F1;
    [now constructor|].
  destruct (Store.refuses (settlementId_unique env) sid db) eqn:Hdup;
    [now apply wr_duplicate|].
  cbn [settlements credit_ledger profiles nila_transfers].
  destruct (fail_credit_ledger_insert (faults env)) eqn:F2;
    [now apply wr_ledger_fault|].
  cbn [settlements credit_ledger profiles nila_transfers].
  destruct (fail_profiles_update (faults env)) eqn:F3;
    [now apply wr_update_fault|].
  cbn [settlements credit_ledger profiles nila_transfers].
  destruct (fail_nila_transfers_insert (faults env)) eqn:F4;
    [now apply wr_transfer_fault|].
  now apply wr_recorded.
Qed.

(** With no fault and a fresh settlement id all four writes happen. *)
Lemma record_writes_ok u db :
  faults env = no_faults ->
  Store.has_settlementId sid db = false ->
  record_writes formData u env db = (after_transfer u db, inr tt).
Proof.
  intros Hnf Hfresh.
  assert (Hr : Store.refuses (settlementId_unique env) sid db = false)
    by (unfold Store.refuses; rewrite Hfresh; apply andb_false_r).
  destruct (record_writes_result u db) as [F|F D|F D F2|F D F2 F3|F D F2 F3 F4|];
    rewrite Hnf in *; cbn in *; congruence.
Qed.

End HandlerFacts.

Section HandlerOutcomes.

Variables (users : list User.t) (formData : Form.t) (env : Env).

Let uid := Form.userId formData.
Let C := Form.creditsUsed formData.
Let sid := generateSettlementId env.

(** Every result of the handler, classified. *)
Lemma handler_inv db db' o :
  handleRecordSettlement users formData env db = (db', o) ->
  (find_user users uid = None /\ db' = db /\ o = NoUserSelected)
  \/ (exists u, find_user users uid = Some u /\ C > User.credit_balance u
                /\ db' = db /\ o = InsufficientCredits (User.credit_balance u))
  \/ (exists u r, find_user users uid = Some u /\ C <= User.credit_balance u
                  /\ writes_result formData env u db (db', r)
                  /\ o = match r with
                         | inr _ => Recorded
                         | inl e => ErrorRecording e
                         end).
Proof.
  intros H.
  destruct (find_user users uid) as [u|] eqn:Hf.
  - destruct (Z_gt_le_dec C (User.credit_balance u)) as [Hgt|Hle].
    + rewrite (insufficient_no_write users formData env db u Hf Hgt) in H.
      inversion H; subst. right; left. exists u. auto.
    + rewrite (validated_runs_writes users formData env db u Hf Hle) in H.
      pose proof (record_writes_result formData env u db) as W.
      destruct (record_writes formData u env db) as [d [e|[]]];
        inversion H; subst; right; right;
        [exists u, (inl e) | exists u, (inr tt)]; auto.
  - rewrite (no_user_no_write users formData env db Hf) in H.
    inversion H; subst. left. auto.
Qed.

(** A recorded run is the fault-free path of [record_writes]. *)
Lemma recorded_inv db db' :
  handleRecordSettlement users formData env db = (db', Recorded) ->
  exists u, find_user users uid = Some u /\ C <= User.credit_balance u
            /\ Store.refuses (settlementId_unique env) sid db = false
            /\ db' = after_transfer formData env u db.
Proof.
  intros H. apply handler_inv in H.
  destruct H as [(_ & _ & Ho)|[(u & _ & _ & _ & Ho)|(u & r & Hf & Hle & W & Ho)]];
    try discriminate.
  exists u. inversion W; subst; try discriminate. auto.
Qed.

Lemma recorded_when_clean db u :
  find_user users uid = Some u ->
  C <= User.credit_balance u ->
  faults env = no_faults ->
  Store.has_settlementId sid db = false ->
  handleRecordSettlement users formData env db
  = (after_transfer formData env u db, Recorded).
Proof.
  intros Hf Hle Hnf Hfresh.
  rewrite (validated_runs_writes users formData env db u Hf Hle).
  now rewrite (record_writes_ok formData env u db Hnf Hfresh).
Qed.

End HandlerOutcomes.

(** ** Balance rows *)

Lemma set_balance_hit uid b stamp p :
  Profile.id p = uid ->
  Profile.credit_balance (Store.set_balance uid b stamp p) = b.
Proof.
  intros <-. unfold Store.set_balance. now rewrite String.eqb_refl.
Qed.

Lemma set_balance_id uid b stamp p :
  Profile.id (Store.set_balance uid b stamp p) = Profile.id p.
Proof.
  unfold Store.set_balance. now destruct (Profile.id p =? uid)%string.
Qed.

Lemma updated_rows_hold uid b stamp ps p :
  In p (map (Store.set_balance uid b stamp) ps) ->
  Profile.id p = uid ->
  Profile.credit_balance p = b.
Proof.
  intros Hin Hid. apply in_map_iff in Hin. destruct Hin as (q & <- & _).
  rewrite set_balance_id in Hid. now apply set_balance_hit.
Qed.

Lemma find_updated uid b stamp ps :
  find (fun p => Profile.id p =? uid)%string
       (map (Store.set_balance uid b stamp) ps)
  = option_map (Store.set_balance uid b stamp)
      (find (fun p => Profile.id p =? uid)%string ps).
Proof.
  induction ps as [|p ps IH]; [reflexivity|].
  cbn [map find]. rewrite set_balance_id.
  destruct (Profile.id p =? uid)%string; [reflexivity | exact IH].
Qed.

Lemma stored_balance_updated uid b stamp db db' b0 :
  profiles db' = map (Store.set_balance uid b stamp) (profiles db) ->
  Store.stored_balance uid db = Some b0 ->
  Store.stored_balance uid db' = Some b.
Proof.
  unfold Store.stored_balance. intros -> H. rewrite find_updated.
  destruct (find _ (profiles db)) as [p|] eqn:Hf; [|discriminate].
  cbn [option_map]. f_equal. apply set_balance_hit.
  apply find_some in Hf. now apply String.eqb_eq.
Qed.

(** ** A freshly fetched user list and the stored balance *)

Lemma find_profile_unique uid ps : forall p,
  NoDup (map Profile.id ps) ->
  In p ps -> Profile.id p = uid ->
  find (fun q => Profile.id q =? uid)%string ps = Some p.
Proof.
  induction ps as [|q ps IH]; intros p Hnd Hin Hid; [easy|].
  cbn [map] in Hnd. inversion Hnd as [|x l Hnotin Hnd']; subst.
  cbn [find]. destruct Hin as [->|Hin].
  - now rewrite String.eqb_refl.
  - destruct (String.eqb_spec (Profile.id q) (Profile.id p)) as [Heq|_].
    + exfalso. apply Hnotin. rewrite Heq. now apply in_map.
    + now apply IH.
Qed.

(** With unique profile ids, the user the page finds in a fresh list
    is the stored row. *)
Lemma fresh_cache_hit db users uid u :
  NoDup (map Profile.id (profiles db)) ->
  fetched_users db users ->
  find_user users uid = Some u ->
  Store.stored_balance uid db = Some (User.credit_balance u).
Proof.
  intros Hnd Hperm Hf. apply find_some in Hf. destruct Hf as [Hin Hid].
  apply String.eqb_eq in Hid.
  apply (Permutation_in _ Hperm), in_map_iff in Hin.
  destruct Hin as (p & <- & Hin).
  unfold Store.stored_balance.
  now rewrite (find_profile_unique uid _ p Hnd Hin Hid).
Qed.

Lemma fresh_cache_miss db users uid :
  fetched_users db users ->
  find_user users uid = None ->
  Store.stored_balance uid db = None.
Proof.
  intros Hperm Hf. unfold Store.stored_balance.
  destruct (find _ (profiles db)) as [p|] eqn:Hp; [|reflexivity].
  exfalso. apply find_some in Hp. destruct Hp as [Hin Hid].
  assert (Hu : In (to_user p) users).
  { apply (Permutation_in _ (Permutation_sym Hperm)). now apply in_map. }
  pose proof (find_none _ _ Hf _ Hu) as Hno. cbn in Hno. congruence.
Qed.

(** ** Validation *)

(** C3, as the handler behaves: a request whose credits exceed the
    balance held for the selected user in the page's cached user list
    is rejected by validation, and the store it returns is the store it
    was given: no settlement row, no ledger entry, no balance change and
    no transfer row.  The cached balance is the one the store holds when
    the list is what [fetchUsers] returns from a store with unique
    profile ids. *)
Theorem exceeding_cached_balance_writes_nothing
    users formData env db selectedUser :
  find_user users (Form.userId formData) = Some selectedUser ->
  Form.creditsUsed formData > User.credit_balance selectedUser ->
  handleRecordSettlement users formData env db
  = (db, InsufficientCredits (User.credit_balance selectedUser))
  /\ (NoDup (map Profile.id (profiles db)) ->
      fetched_users db users ->
      Store.stored_balance (Form.userId formData) db
      = Some (User.credit_balance selectedUser)).
Proof.
  intros Hf Hgt. split.
  - now apply insufficient_no_write.
  - intros Hnd Hfresh. now apply (fresh_cache_hit db users).
Qed.

(** Scenario B: balance 100, 150 credits requested. *)
Lemma exceeding_cached_balance_writes_nothing_witness :
  handleRecordSettlement [Scenario.user 100] (Scenario.form 150)
    (Scenario.env no_faults) (Scenario.db 100)
  = (Scenario.db 100, InsufficientCredits 100)
  /\ (NoDup (map Profile.id (profiles (Scenario.db 100))) ->
      fetched_users (Scenario.db 100) [Scenario.user 100] ->
      Store.stored_balance "user-1" (Scenario.db 100) = Some 100).
Proof.
  apply (exceeding_cached_balance_writes_nothing
           [Scenario.user 100] (Scenario.form 150) (Scenario.env no_faults)
           (Scenario.db 100) (Scenario.user 100)).
  - reflexivity.
  - reflexivity.
Defined.

(** C3 as stated fails: the store holds 100 for the user, the page
    still lists 500, and a request for 150 credits is recorded: a
    settlement row, a ledger entry and a transfer are written and the
    stored balance becomes 350. *)
Lemma stale_cache_lets_excess_through :
  ~ Claimed.exceeding_stored_balance_is_rejected.
Proof.
  intros claim.
  destruct (claim stale_cache (Scenario.form 150) (Scenario.env no_faults)
              (Scenario.db 100) 100) as (o & Hrun & Ho).
  - reflexivity.
  - reflexivity.
  - vm_compute in Hrun. apply Ho. now injection Hrun.
Qed.

(** The page itself lets its list go stale: a run whose transfer
    insert fails has debited the stored balance, but the list is
    refetched only after a recorded run.  The next request is checked
    against the 500 still listed, so 400 credits are taken from a
    stored balance of 300. *)
Example stale_cache_after_failed_transfer :
  let users := [Scenario.user 500] in
  let run1 := handleRecordSettlement users (Scenario.form 200)
                (Scenario.env (mkFaults false false false true))
                (Scenario.db 500) in
  let run2 := handleRecordSettlement users (Scenario.form 400)
                (Scenario.env2 no_faults) (fst run1) in
  snd run1 = ErrorRecording (WriteFault "nila_transfers")
  /\ Store.stored_balance "user-1" (fst run1) = Some 300
  /\ snd run2 = Recorded
  /\ map Ledger.balance_after (credit_ledger (fst run2)) = [300; 100]
  /\ Store.stored_balance "user-1" (fst run2) = Some 100.
Proof. vm_compute. repeat split. Qed.

(** ** A recorded settlement *)

(** C4, as the handler behaves: when a run completes successfully with
    [B] the balance of the selected user in the page's cached list and
    [C] credits used, then [C <= B], exactly one ledger entry is
    appended, with amount [-C] and balance_after [B - C]; every profile
    row of the user is rewritten to hold [B - C], so that is the stored
    balance whenever the user has a row; and exactly one transfer row
    with status completed is appended.  [B] is the balance the store
    held before the run when the list is what [fetchUsers] returns from
    a store with unique profile ids. *)
Theorem recorded_run_debits_cached_balance
    users formData env db db' selectedUser :
  find_user users (Form.userId formData) = Some selectedUser ->
  handleRecordSettlement users formData env db = (db', Recorded) ->
  let B := User.credit_balance selectedUser in
  let C := Form.creditsUsed formData in
  C <= B
  /\ (exists entry,
        credit_ledger db' = credit_ledger db ++ [entry]
        /\ Ledger.userId entry = Form.userId formData
        /\ Ledger.amount entry = - C
        /\ Ledger.balance_after entry = B - C)
  /\ profiles db'
     = map (Store.set_balance (Form.userId formData) (B - C) (iso_now env))
           (profiles db)
  /\ (forall b0, Store.stored_balance (Form.userId formData) db = Some b0 ->
        Store.stored_balance (Form.userId formData) db' = Some (B - C))
  /\ (exists transfer,
        nila_transfers db' = nila_transfers db ++ [transfer]
        /\ Transfer.userId transfer = Form.userId formData
        /\ Transfer.status transfer = TransferStatus.completed)
  /\ (NoDup (map Profile.id (profiles db)) ->
      fetched_users db users ->
      Store.stored_balance (Form.userId formData) db = Some B).
Proof.
  intros Hf H B C.
  apply recorded_inv in H. destruct H as (u & Hf' & Hle & _ & ->).
  rewrite Hf in Hf'. injection Hf' as <-.
  split; [exact Hle|].
  split; [eexists; split; [reflexivity|]; now cbn|].
  split; [reflexivity|].
  split; [|split].
  - intros b0 Hb0. eapply stored_balance_updated; [|exact Hb0]. reflexivity.
  - eexists; split; [reflexivity|]. now cbn.
  - intros Hnd Hfresh. now apply (fresh_cache_hit db users).
Qed.

(** Scenario A: balance 500, 200 credits used, reward 10 on polygon to
    0xabc: ledger entry of -200 with balance_after 300, stored balance
    300, one completed transfer. *)
Lemma recorded_run_debits_cached_balance_witness :
  let db' := fst (handleRecordSettlement [Scenario.user 500]
                    (Scenario.form 200) (Scenario.env no_faults)
                    (Scenario.db 500)) in
  200 <= 500
  /\ (exists entry,
        credit_ledger db' = [] ++ [entry]
        /\ Ledger.userId entry = "user-1"
        /\ Ledger.amount entry = - 200
        /\ Ledger.balance_after entry = 500 - 200)
  /\ profiles db'
     = map (Store.set_balance "user-1" (500 - 200) "2024-05-01T09:10:00.000Z")
           [Scenario.profile 500]
  /\ (forall b0, Store.stored_balance "user-1" (Scenario.db 500) = Some b0 ->
        Store.stored_balance "user-1" db' = Some (500 - 200))
  /\ (exists transfer,
        nila_transfers db' = [] ++ [transfer]
        /\ Transfer.userId transfer = "user-1"
        /\ Transfer.status transfer = TransferStatus.completed)
  /\ (NoDup (map Profile.id (profiles (Scenario.db 500))) ->
      fetched_users (Scenario.db 500) [Scenario.user 500] ->
      Store.stored_balance "user-1" (Scenario.db 500) = Some 500).
Proof.
  intros db'.
  apply (recorded_run_debits_cached_balance
           [Scenario.user 500] (Scenario.form 200) (Scenario.env no_faults)
           (Scenario.db 500) db' (Scenario.user 500)).
  - reflexivity.
  - vm_compute. reflexivity.
Defined.

(** C4 as stated fails: the store holds 120 for the user, the page
    still lists 500, and a recorded run of 100 credits writes a ledger
    entry with balance_after 400 and sets the stored balance to 400,
    not to 20. *)
Lemma stale_cache_debits_cached_balance :
  ~ Claimed.recorded_run_debits_stored_balance.
Proof.
  intros claim.
  destruct (claim stale_cache (Scenario.form 100) (Scenario.env no_faults)
              (Scenario.db 120)
              (after_transfer (Scenario.form 100) (Scenario.env no_faults)
                 (Scenario.user 500) (Scenario.db 120))
              120) as (entry & Hledger & _ & Hafter & _).
  - reflexivity.
  - vm_compute. discriminate.
  - vm_compute. reflexivity.
  - vm_compute in Hledger. injection Hledger as <-.
    vm_compute in Hafter. discriminate Hafter.
Qed.

(** C5, as the handler behaves: a request for exactly the balance held
    for the selected user in the page's cached list is never turned
    away by validation, whatever the store does; and when no write fails
    and the generated settlement id is new, it is recorded: the ledger
    entry has balance_after 0, every profile row of the user holds 0,
    the settlement row is stored as processed and a transfer row with
    status completed is appended.  The cached balance is the one the
    store holds when the list is what [fetchUsers] returns from a store
    with unique profile ids. *)
Theorem exact_cached_balance_is_accepted
    users formData env db selectedUser :
  find_user users (Form.userId formData) = Some selectedUser ->
  Form.creditsUsed formData = User.credit_balance selectedUser ->
  (forall db' o,
      handleRecordSettlement users formData env db = (db', o) ->
      o <> NoUserSelected /\ forall b, o <> InsufficientCredits b)
  /\ (faults env = no_faults ->
      Store.has_settlementId (generateSettlementId env) db = false ->
      exists db',
        handleRecordSettlement users formData env db = (db', Recorded)
        /\ (exists entry,
              credit_ledger db' = credit_ledger db ++ [entry]
              /\ Ledger.balance_after entry = 0)
        /\ (forall p, In p (profiles db') ->
                      Profile.id p = Form.userId formData ->
                      Profile.credit_balance p = 0)
        /\ (exists row,
              settlements db' = settlements db ++ [row]
              /\ Settlement.status row = Status.processed)
        /\ (exists transfer,
              nila_transfers db' = nila_transfers db ++ [transfer]
              /\ Transfer.userId transfer = Form.userId formData
              /\ Transfer.status transfer = TransferStatus.completed))
  /\ (NoDup (map Profile.id (profiles db)) ->
      fetched_users db users ->
      Store.stored_balance (Form.userId formData) db
      = Some (Form.creditsUsed formData)).
Proof.
  intros Hf Heq.
  assert (Hle : Form.creditsUsed formData <= User.credit_balance selectedUser)
    by lia.
  split; [|split].
  - intros db' o H.
    rewrite (validated_runs_writes users formData env db _ Hf Hle) in H.
    destruct (record_writes formData selectedUser env db) as [d [e|[]]];
      inversion H; subst; split; try intros b; discriminate.
  - intros Hnf Hfresh.
    exists (after_transfer formData env selectedUser db).
    split; [now apply recorded_when_clean|].
    split; [eexists; split; [reflexivity|]; cbn; lia|].
    split; [|split].
    + intros p Hin Hid. cbn in Hin.
      rewrite (updated_rows_hold _ _ _ _ _ Hin Hid). lia.
    + eexists; split; reflexivity.
    + eexists; split; [reflexivity|]. now cbn.
  - intros Hnd Hfresh. rewrite Heq. now apply (fresh_cache_hit db users).
Qed.

(** Scenario D: balance 200, 200 credits used. *)
Lemma exact_cached_balance_is_accepted_witness :
  exists db',
    handleRecordSettlement [Scenario.user 200] (Scenario.form 200)
      (Scenario.env no_faults) (Scenario.db 200) = (db', Recorded)
    /\ (exists entry,
          credit_ledger db' = [] ++ [entry] /\ Ledger.balance_after entry = 0)
    /\ (forall p, In p (profiles db') -> Profile.id p = "user-1" ->
                  Profile.credit_balance p = 0)
    /\ (exists row,
          settlements db' = [] ++ [row]
          /\ Settlement.status row = Status.processed)
    /\ (exists transfer,
          nila_transfers db' = [] ++ [transfer]
          /\ Transfer.userId transfer = "user-1"
          /\ Transfer.status transfer = TransferStatus.completed).
Proof.
  apply (exact_cached_balance_is_accepted
           [Scenario.user 200] (Scenario.form 200) (Scenario.env no_faults)
           (Scenario.db 200) (Scenario.user 200)).
  - reflexivity.
  - reflexivity.
  - reflexivity.
  - reflexivity.
Defined.

(** C5 as stated fails: the store holds 200 for the user, the page
    still lists 100, and a request for exactly 200 credits is turned
    away for insufficient credits. *)
Lemma stale_cache_rejects_exact_balance :
  ~ Claimed.exact_stored_balance_is_accepted.
Proof.
  intros claim.
  destruct (claim [Scenario.user 100] (Scenario.form 200)
              (Scenario.env no_faults) (Scenario.db 200) 200)
    as (db' & Hrun).
  - reflexivity.
  - reflexivity.
  - reflexivity.
  - reflexivity.
  - vm_compute in Hrun. discriminate Hrun.
Qed.

(** C10: whenever a run gets as far as writing the balance (it is
    recorded, or only the transfer insert fails), the balance_after of
    the ledger entry it appended and the credit_balance it wrote to the
    user's profile rows are the same number, the cached balance minus
    the credits used; the store the run started from plays no part. *)
Theorem ledger_and_profile_balances_agree
    users formData env db db' o selectedUser :
  find_user users (Form.userId formData) = Some selectedUser ->
  handleRecordSettlement users formData env db = (db', o) ->
  o = Recorded \/ o = ErrorRecording (WriteFault "nila_transfers") ->
  let written :=
    User.credit_balance selectedUser - Form.creditsUsed formData in
  exists entry,
    credit_ledger db' = credit_ledger db ++ [entry]
    /\ Ledger.balance_after entry = written
    /\ profiles db'
       = map (Store.set_balance (Form.userId formData) written (iso_now env))
             (profiles db)
    /\ (forall p, In p (profiles db') ->
                  Profile.id p = Form.userId formData ->
                  Profile.credit_balance p = Ledger.balance_after entry).
Proof.
  intros Hf H Ho written.
  apply handler_inv in H.
  destruct H as [(_ & _ & ->)|[(u & _ & _ & _ & ->)|(u & r & Hf' & _ & W & ->)]];
    try (destruct Ho; discriminate).
  rewrite Hf in Hf'. injection Hf' as <-.
  inversion W; subst; try (destruct Ho; discriminate).
  - eexists. split; [reflexivity|]. split; [reflexivity|].
    split; [reflexivity|].
    intros p Hin Hid. cbn in Hin. now rewrite (updated_rows_hold _ _ _ _ _ Hin Hid).
  - eexists. split; [reflexivity|]. split; [reflexivity|].
    split; [reflexivity|].
    intros p Hin Hid. cbn in Hin. now rewrite (updated_rows_hold _ _ _ _ _ Hin Hid).
Qed.

(** A stale cache: the page still shows 500 while the store holds 120;
    the ledger entry and the profile both receive 500 - 200. *)
Lemma ledger_and_profile_balances_agree_witness :
  let db' := fst (handleRecordSettlement [Scenario.user 500]
                    (Scenario.form 200) (Scenario.env no_faults)
                    (Scenario.db 120)) in
  exists entry,
    credit_ledger db' = [] ++ [entry]
    /\ Ledger.balance_after entry = 500 - 200
    /\ profiles db'
       = map (Store.set_balance "user-1" (500 - 200)
                "2024-05-01T09:10:00.000Z")
             [Scenario.profile 120]
    /\ (forall p, In p (profiles db') -> Profile.id p = "user-1" ->
                  Profile.credit_balance p = Ledger.balance_after entry).
Proof.
  intros db'.
  apply (ledger_and_profile_balances_agree
           [Scenario.user 500] (Scenario.form 200) (Scenario.env no_faults)
           (Scenario.db 120) db' Recorded (Scenario.user 500)).
  - reflexivity.
  - vm_compute. reflexivity.
  - left. reflexivity.
Defined.

(** ** Failure after the settlement row exists *)

(** C1, as the handler behaves: take a run that passes validation and
    whose settlement insert the store accepts, and let one of the three
    later writes fail.  The run ends with the error of the first such
    write, the writes before it stay in the store and the ones after it
    are not made: a ledger fault leaves only the settlement row, a
    balance fault the row and the ledger entry, a transfer fault the
    row, the ledger entry and the debited balance.  In each case the
    settlements table is the old one followed by the row as it was
    inserted, with status processed; nothing sets it to failed, and no
    transfer is written. *)
Theorem later_fault_leaves_settlement_processed
    users formData env db selectedUser :
  find_user users (Form.userId formData) = Some selectedUser ->
  Form.creditsUsed formData <= User.credit_balance selectedUser ->
  fail_settlements_insert (faults env) = false ->
  Store.refuses (settlementId_unique env) (generateSettlementId env) db
  = false ->
  fail_credit_ledger_insert (faults env)
  || fail_profiles_update (faults env)
  || fail_nila_transfers_insert (faults env) = true ->
  let result := handleRecordSettlement users formData env db in
  result
  = (if fail_credit_ledger_insert (faults env) then
       (after_settlement formData env db,
        ErrorRecording (WriteFault "credit_ledger"))
     else if fail_profiles_update (faults env) then
       (after_ledger formData env selectedUser db,
        ErrorRecording (WriteFault "profiles"))
     else
       (after_update formData env selectedUser db,
        ErrorRecording (WriteFault "nila_transfers")))
  /\ settlements (fst result) = settlements db ++ [new_row formData env]
  /\ Settlement.status (new_row formData env) = Status.processed
  /\ nila_transfers (fst result) = nila_transfers db.
Proof.
  intros Hf Hle F1 Hdup Hfault result. subst result.
  rewrite (validated_runs_writes users formData env db _ Hf Hle).
  pose proof (record_writes_result formData env selectedUser db) as W.
  destruct (record_writes formData selectedUser env db) as [d r].
  destruct (fail_credit_ledger_insert (faults env)) eqn:F2;
    [|destruct (fail_profiles_update (faults env)) eqn:F3;
      [|destruct (fail_nila_transfers_insert (faults env)) eqn:F4;
        [|discriminate Hfault]]];
    inversion W; subst; try congruence; repeat split.
Qed.

(** Scenario A with the ledger insert refused. *)
Lemma later_fault_leaves_settlement_processed_witness :
  let env := Scenario.env Scenario.ledger_fault in
  let result := handleRecordSettlement [Scenario.user 500]
                  (Scenario.form 200) env (Scenario.db 500) in
  result
  = (after_settlement (Scenario.form 200) env (Scenario.db 500),
     ErrorRecording (WriteFault "credit_ledger"))
  /\ settlements (fst result) = [] ++ [new_row (Scenario.form 200) env]
  /\ Settlement.status (new_row (Scenario.form 200) env) = Status.processed
  /\ nila_transfers (fst result) = [].
Proof.
  intros env.
  apply (later_fault_leaves_settlement_processed
           [Scenario.user 500] (Scenario.form 200) env (Scenario.db 500)
           (Scenario.user 500)).
  - reflexivity.
  - vm_compute. discriminate.
  - reflexivity.
  - reflexivity.
  - reflexivity.
Defined.

(** C1 as stated fails: with the ledger insert refused, the run returns
    an error and the settlement row it created is stored as processed,
    not failed. *)
Lemma failure_does_not_mark_failed :
  ~ Claimed.failure_marks_settlement_failed.
Proof.
  intros claim.
  specialize (claim [Scenario.user 500] (Scenario.form 200)
                    (Scenario.env Scenario.ledger_fault) (Scenario.db 500)
                    (after_settlement (Scenario.form 200)
                       (Scenario.env Scenario.ledger_fault) (Scenario.db 500))
                    (WriteFault "credit_ledger")
                    (new_row (Scenario.form 200)
                       (Scenario.env Scenario.ledger_fault))).
  assert (Hrun : Settlement.status
                   (new_row (Scenario.form 200)
                      (Scenario.env Scenario.ledger_fault)) = Status.failed).
  { apply claim; vm_compute; reflexivity. }
  discriminate Hrun.
Qed.

(** ** Status of the row along a run *)

Lemma run_done n : forall r o db, run n r (Done o) db = (db, Done o).
Proof. induction n as [|n IH]; intros r o db; [reflexivity | apply IH]. Qed.

(** Once the settlement insert has been attempted no step writes to the
    settlements table. *)
Lemma step_past_insert r pc db db' pc' :
  past_insert pc = true ->
  step r pc db = (db', pc') ->
  settlements db' = settlements db /\ past_insert pc' = true.
Proof.
  destruct pc as [|u|u s|u s|u s|o]; cbn [past_insert step];
    intros Hp H; try discriminate Hp.
  - unfold Store.insert_ledger in H.
    destruct (fail_credit_ledger_insert _); inversion H; subst; now cbn.
  - unfold Store.update_profile in H.
    destruct (fail_profiles_update _); inversion H; subst; now cbn.
  - unfold Store.insert_transfer in H.
    destruct (fail_nila_transfers_insert _); inversion H; subst; now cbn.
  - inversion H; subst; now cbn.
Qed.

Lemma run_past_insert n : forall r pc db db' pc',
  past_insert pc = true ->
  run n r pc db = (db', pc') ->
  settlements db' = settlements db /\ past_insert pc' = true.
Proof.
  induction n as [|n IH]; intros r pc db db' pc' Hp H; cbn [run] in H.
  - inversion H; subst; auto.
  - destruct (step r pc db) as [d p] eqn:Hs.
    destruct (step_past_insert r pc db d p Hp Hs) as [Hd Hp'].
    destruct (IH r p d db' pc' Hp' H) as [Hd' Hp''].
    split; [congruence | exact Hp''].
Qed.

Lemma inserts_row_user r u u' db :
  inserts_row r u db -> inserts_row r u' db -> u = u'.
Proof. intros (Hf & _) (Hf' & _). congruence. Qed.

(** The first two steps of a run: either the settlement row is
    inserted, or the run is over and the store is as it was. *)
Lemma run_to_insert r db :
  (exists u,
      inserts_row r u db
      /\ run 2 r AtValidate db
         = (after_settlement (req_form r) (req_env r) db,
            AtInsertLedger u (new_row (req_form r) (req_env r))))
  \/ ((forall u, ~ inserts_row r u db)
      /\ exists o, o <> Recorded /\ run 2 r AtValidate db = (db, Done o)).
Proof.
  unfold inserts_row. cbn [run step].
  destruct (find_user (req_users r) (Form.userId (req_form r))) as [u|] eqn:Hf.
  - destruct (Z.gtb_spec (Form.creditsUsed (req_form r))
                         (User.credit_balance u)) as [Hgt|Hle].
    + right. split.
      * intros u' (Hf' & Hle & _). injection Hf' as <-. lia.
      * eexists; split; [|reflexivity]. discriminate.
    + cbn [step]. unfold Store.insert_settlement.
      change (SettlementPayload.settlementId
                (settlementPayload (req_form r)
                   (generateSettlementId (req_env r))))
        with (generateSettlementId (req_env r)).
      destruct (fail_settlements_insert (faults (req_env r))) eqn:F1.
      * right. split.
        -- intros u' (_ & _ & F & _). congruence.
        -- eexists; split; [|reflexivity]. discriminate.
      * destruct (Store.refuses _ _ db) eqn:Hdup.
        -- right. split.
           ++ intros u' (_ & _ & _ & D). congruence.
           ++ eexists; split; [|reflexivity]. discriminate.
        -- left. exists u. auto.
  - right. split.
    + intros u' (Hf' & _). discriminate Hf'.
    + eexists; split; [|reflexivity]. discriminate.
Qed.

Lemma run_split n m : forall r pc db,
  run (n + m) r pc db
  = let '(d, p) := run n r pc db in run m r p d.
Proof.
  induction n as [|n IH]; intros r pc db; cbn [run Nat.add].
  - reflexivity.
  - destruct (step r pc db) as [d p]. apply IH.
Qed.

(** C2, as the handler behaves: the settlement row is inserted with
    status processed.  A run whose request passes validation and whose
    insert the store accepts has, from its second step on and at every
    later point up to and including its end, the old settlements table
    followed by exactly that row; right after the insert nothing else
    has been written.  Before the second step, and throughout a run
    that is turned away or whose insert is refused, the store is as it
    was and the run is not recorded. *)
Theorem settlement_row_is_inserted_processed n r db db' pc :
  run n r AtValidate db = (db', pc) ->
  let row := new_row (req_form r) (req_env r) in
  Settlement.status row = Status.processed
  /\ (forall u, inserts_row r u db -> (2 <= n)%nat ->
        settlements db' = settlements db ++ [row]
        /\ past_insert pc = true)
  /\ (forall u, inserts_row r u db -> n = 2%nat ->
        pc = AtInsertLedger u row
        /\ db' = after_settlement (req_form r) (req_env r) db)
  /\ ((n < 2)%nat \/ (forall u, ~ inserts_row r u db) ->
        db' = db /\ pc <> Done Recorded).
Proof.
  intros H row. split; [reflexivity|].
  destruct n as [|[|m]].
  - cbn [run] in H. injection H as <- <-.
    split; [intros; lia|]. split; [intros; discriminate|].
    intros _. split; [reflexivity | discriminate].
  - cbn [run] in H.
    split; [intros; lia|]. split; [intros; discriminate|].
    intros _. cbn [step] in H.
    destruct (find_user _ _) as [u|]; [destruct (_ >? _)|];
      injection H as <- <-; split; (reflexivity || discriminate).
  - change (S (S m)) with (2 + m)%nat in H. rewrite run_split in H.
    destruct (run_to_insert r db) as [(u & Hi & Hrun)|(Hno & o & Ho & Hrun)];
      rewrite Hrun in H.
    + split; [|split].
      * intros _ _ _.
        apply run_past_insert in H; [|reflexivity].
        destruct H as [Hs Hp]. now rewrite Hs.
      * intros u' Hi' Hn. injection Hn as ->. cbn [run] in H.
        injection H as <- <-.
        now rewrite (inserts_row_user r u u' db Hi Hi').
      * intros [Hlt|Hno]; [lia | now elim (Hno u)].
    + rewrite run_done in H. injection H as <- <-.
      split; [|split].
      * intros u Hi. now elim (Hno u).
      * intros u Hi. now elim (Hno u).
      * intros _. split; [reflexivity | congruence].
Qed.

(** Scenario A run to its end, and the same run stopped right after
    the insert. *)
Lemma settlement_row_is_inserted_processed_witness :
  let r := request 500 200 no_faults in
  let row := new_row (req_form r) (req_env r) in
  let db' := after_transfer (req_form r) (req_env r) (Scenario.user 500)
               (Scenario.db 500) in
  Settlement.status row = Status.processed
  /\ (forall u, inserts_row r u (Scenario.db 500) -> (2 <= 5)%nat ->
        settlements db' = [] ++ [row]
        /\ past_insert (Done Recorded) = true)
  /\ (forall u, inserts_row r u (Scenario.db 500) -> 5%nat = 2%nat ->
        Done Recorded = AtInsertLedger u row
        /\ db' = after_settlement (req_form r) (req_env r) (Scenario.db 500))
  /\ ((5 < 2)%nat \/ (forall u, ~ inserts_row r u (Scenario.db 500)) ->
        db' = Scenario.db 500 /\ Done Recorded <> Done Recorded).
Proof.
  intros r row db'.
  apply (settlement_row_is_inserted_processed 5 r (Scenario.db 500) db'
           (Done Recorded)).
  vm_compute. reflexivity.
Defined.

(** C2 as stated fails: two steps into Scenario A the settlement row
    exists with status processed while no ledger entry, balance update
    or transfer has been written. *)
Lemma settlement_is_not_created_pending :
  ~ Claimed.pending_until_all_written.
Proof.
  intros claim.
  pose (r := request 500 200 no_faults).
  pose (row := new_row (req_form r) (req_env r)).
  destruct (claim 2%nat r (Scenario.db 500)
              (after_settlement (req_form r) (req_env r) (Scenario.db 500))
              (AtInsertLedger (Scenario.user 500) row) row)
    as [Hpending _].
  - vm_compute. reflexivity.
  - reflexivity.
  - specialize (Hpending (Scenario.user 500) row eq_refl).
    discriminate Hpending.
Qed.

(** The handler is the step machine run to its end. *)
Lemma run_is_handler users formData env db :
  run 5 (mkRequest users formData env) AtValidate db
  = let '(db', o) := handleRecordSettlement users formData env db in
    (db', Done o).
Proof.
  unfold handleRecordSettlement, record_writes, bind.
  cbn [run step req_users req_form req_env].
  destruct (find_user users (Form.userId formData)) as [u|]; [|reflexivity].
  destruct (Form.creditsUsed formData >? User.credit_balance u);
    [reflexivity|].
  cbn [step req_users req_form req_env]. unfold Store.insert_settlement.
  destruct (fail_settlements_insert (faults env)); [reflexivity|].
  destruct (Store.refuses _ _ db); [reflexivity|].
  cbn [step req_users req_form req_env]. unfold Store.insert_ledger.
  destruct (fail_credit_ledger_insert (faults env)); [reflexivity|].
  cbn [step req_users req_form req_env]. unfold Store.update_profile.
  destruct (fail_profiles_update (faults env)); [reflexivity|].
  cbn [step req_users req_form req_env]. unfold Store.insert_transfer.
  destruct (fail_nila_transfers_insert (faults env)); reflexivity.
Qed.

(** ** Replays of a settlement id *)

Lemma has_settlementId_app sid db row :
  Store.has_settlementId sid
    (mkDB (settlements db ++ [row]) (credit_ledger db) (profiles db)
          (nila_transfers db))
  = Store.has_settlementId sid db
    || (Settlement.settlementId row =? sid)%string.
Proof.
  unfold Store.has_settlementId. cbn [settlements].
  rewrite existsb_app. cbn. now rewrite orb_false_r.
Qed.

Lemma has_settlementId_grows sid db ls ps ts row :
  Settlement.settlementId row = sid ->
  Store.has_settlementId sid (mkDB (settlements db ++ [row]) ls ps ts) = true.
Proof.
  intros <-. unfold Store.has_settlementId. cbn [settlements].
  rewrite existsb_app. cbn. rewrite String.eqb_refl. apply orb_true_r.
Qed.

Lemma has_settlementId_after_transfer sid formData env u db :
  Store.has_settlementId sid (after_transfer formData env u db)
  = Store.has_settlementId sid db || (generateSettlementId env =? sid)%string.
Proof.
  unfold Store.has_settlementId. cbn [settlements after_transfer].
  rewrite existsb_app. cbn. now rewrite orb_false_r.
Qed.

(** A validated run with no failing write is refused exactly when the
    store refuses its settlement id, and recorded otherwise. *)
Lemma clean_run_result users formData env db u :
  find_user users (Form.userId formData) = Some u ->
  Form.creditsUsed formData <= User.credit_balance u ->
  faults env = no_faults ->
  handleRecordSettlement users formData env db
  = if Store.refuses (settlementId_unique env) (generateSettlementId env) db
    then (db, ErrorRecording (UniqueViolation "settlements" "settlementId"))
    else (after_transfer formData env u db, Recorded).
Proof.
  intros Hf Hle Hnf.
  rewrite (validated_runs_writes users formData env db u Hf Hle).
  pose proof (record_writes_result formData env u db) as W.
  destruct (record_writes formData u env db) as [d r].
  destruct (Store.refuses _ _ db) eqn:Hdup;
    inversion W; subst; rewrite Hnf in *; cbn in *; congruence.
Qed.




(** Two runs that generate the same id, from the same clock reading
    and random digits: a table that refuses repeated ids turns the
    second away with one debit in the ledger; a table without the
    constraint records both. *)
Example collision_with_unique_constraint :
  let run1 := handleRecordSettlement [Scenario.user 500] (Scenario.form 200)
                (collided true "row-1") (Scenario.db 500) in
  let run2 := handleRecordSettlement [Scenario.user 300] (Scenario.form 200)
                (collided true "row-2") (fst run1) in
  generateSettlementId (collided true "row-1")
  = generateSettlementId (collided true "row-2")
  /\ snd run1 = Recorded
  /\ snd run2
     = ErrorRecording (UniqueViolation "settlements" "settlementId")
  /\ fst run2 = fst run1
  /\ map Ledger.amount (credit_ledger (fst run2)) = [-200].
Proof. vm_compute. repeat split. Qed.

Example replay_without_unique_constraint :
  let env1 := mkEnv 1714554000000 "0.4fzyo82mvyr" "row-1"
                    "2024-05-01T09:10:00.000Z" false no_faults in
  let env2 := mkEnv 1714554000000 "0.4fzyo82mvyr" "row-2"
                    "2024-05-01T09:10:00.000Z" false no_faults in
  let run1 := handleRecordSettlement [Scenario.user 500] (Scenario.form 200)
                env1 (Scenario.db 500) in
  let run2 := handleRecordSettlement [Scenario.user 500] (Scenario.form 200)
                env2 (fst run1) in
  generateSettlementId env1 = generateSettlementId env2
  /\ snd run1 = Recorded /\ snd run2 = Recorded
  /\ map Ledger.amount (credit_ledger (fst run2)) = [-200; -200]
  /\ List.length (nila_transfers (fst run2)) = 2%nat.
Proof. vm_compute. repeat split. Qed.

(** ** References to a processed settlement *)

Lemma ledger_refs_app id db ss ps ts entry :
  ledger_refs id (mkDB ss (credit_ledger db ++ [entry]) ps ts)
  = (ledger_refs id db
     + if (Ledger.reference_id entry =? id)%string then 1 else 0)%nat.
Proof.
  unfold ledger_refs. cbn [credit_ledger].
  rewrite filter_app, length_app. cbn [filter].
  now destruct (Ledger.reference_id entry =? id)%string.
Qed.

Lemma transfer_refs_app id db ss ls ps transfer :
  transfer_refs id (mkDB ss ls ps (nila_transfers db ++ [transfer]))
  = (transfer_refs id db
     + if (Transfer.settlementId transfer =? id)%string then 1 else 0)%nat.
Proof.
  unfold transfer_refs. cbn [nila_transfers].
  rewrite filter_app, length_app. cbn [filter].
  now destruct (Transfer.settlementId transfer =? id)%string.
Qed.

(** C7, as the handler behaves: after a recorded run, started on a
    store in which nothing yet refers to the row id the store assigns,
    the new settlement row is processed, exactly one ledger entry has
    that row id as reference_id and exactly one transfer has it as
    settlementId (the generated STL_ identifier appears only in their
    description and notes), and the stored balance of the user, if the
    user has a profile row, is the cached balance minus the credits
    used. *)
Theorem recorded_settlement_is_referenced_once users formData env db db' :
  handleRecordSettlement users formData env db = (db', Recorded) ->
  ledger_refs (row_id env) db = 0%nat ->
  transfer_refs (row_id env) db = 0%nat ->
  exists selectedUser row,
    find_user users (Form.userId formData) = Some selectedUser
    /\ settlements db' = settlements db ++ [row]
    /\ Settlement.status row = Status.processed
    /\ Settlement.id row = row_id env
    /\ Settlement.settlementId row = generateSettlementId env
    /\ ledger_refs (Settlement.id row) db' = 1%nat
    /\ transfer_refs (Settlement.id row) db' = 1%nat
    /\ (forall b0,
          Store.stored_balance (Form.userId formData) db = Some b0 ->
          Store.stored_balance (Form.userId formData) db'
          = Some (User.credit_balance selectedUser
                  - Form.creditsUsed formData)).
Proof.
  intros H Hl Ht.
  apply recorded_inv in H. destruct H as (u & Hf & _ & _ & ->).
  exists u, (new_row formData env).
  split; [exact Hf|]. split; [reflexivity|]. split; [reflexivity|].
  split; [reflexivity|]. split; [reflexivity|].
  change (Settlement.id (new_row formData env)) with (row_id env).
  split; [|split].
  - unfold after_transfer. rewrite ledger_refs_app, Hl.
    cbn. now rewrite String.eqb_refl.
  - unfold after_transfer. rewrite transfer_refs_app, Ht.
    cbn. now rewrite String.eqb_refl.
  - intros b0 Hb0. eapply stored_balance_updated; [|exact Hb0]. reflexivity.
Qed.

Lemma recorded_settlement_is_referenced_once_witness :
  let db' := fst (handleRecordSettlement [Scenario.user 500]
                    (Scenario.form 200) (Scenario.env no_faults)
                    (Scenario.db 500)) in
  exists selectedUser row,
    find_user [Scenario.user 500] "user-1" = Some selectedUser
    /\ settlements db' = [] ++ [row]
    /\ Settlement.status row = Status.processed
    /\ Settlement.id row = "row-1"
    /\ Settlement.settlementId row
       = generateSettlementId (Scenario.env no_faults)
    /\ ledger_refs (Settlement.id row) db' = 1%nat
    /\ transfer_refs (Settlement.id row) db' = 1%nat
    /\ (forall b0,
          Store.stored_balance "user-1" (Scenario.db 500) = Some b0 ->
          Store.stored_balance "user-1" db'
          = Some (User.credit_balance selectedUser - 200)).
Proof.
  intros db'.
  apply (recorded_settlement_is_referenced_once
           [Scenario.user 500] (Scenario.form 200) (Scenario.env no_faults)
           (Scenario.db 500) db').
  - vm_compute. reflexivity.
  - reflexivity.
  - reflexivity.
Defined.

(** C7 as stated fails, whichever field of the settlement the
    references are compared with: when the ledger insert is refused,
    the run leaves a processed settlement row with no ledger entry and
    no transfer. *)
Lemma processed_settlement_without_ledger_entry :
  ~ Claimed.processed_is_referenced_once Settlement.settlementId
  /\ ~ Claimed.processed_is_referenced_once Settlement.id.
Proof.
  pose (formData := Scenario.form 200).
  pose (env := Scenario.env Scenario.ledger_fault).
  split; intros claim;
    destruct (claim [Scenario.user 500] formData env (Scenario.db 500)
                (after_settlement formData env (Scenario.db 500))
                (ErrorRecording (WriteFault "credit_ledger"))
                (new_row formData env))
      as [Hledger _];
    try (vm_compute; reflexivity);
    vm_compute in Hledger; discriminate Hledger.
Qed.

(** * Properties of the rate lookup *)

Section RateLookup.

Import NilaRate.

Lemma gt_zero_positive n : gt_zero n = true -> positive n.
Proof.
  destruct n as [| | |q]; cbn; try discriminate; [trivial|].
  intros H. apply Qnot_le_lt. intros Hle.
  apply Qle_bool_iff in Hle. rewrite Hle in H. discriminate.
Qed.

Lemma fallback_positive : positive FALLBACK_RATE.
Proof. reflexivity. Qed.

Lemma as_number_get_inv json key n :
  as_number (get (Some json) key) = Some n ->
  exists fields, json = JObject fields /\ lookup key fields = Some (JNumber n).
Proof.
  destruct json as [| | | | |fields]; cbn; try discriminate.
  intros H. exists fields. split; [reflexivity|].
  destruct (lookup key fields) as [[| |m| | |]|]; cbn in H; try discriminate.
  now injection H as ->.
Qed.

Lemma fetch_ok_json_some env url json :
  fetch_ok_json env url = inr (Some json) ->
  fetch env url = Responded (mkResponse true (Parsed json)).
Proof.
  unfold fetch_ok_json.
  destruct (fetch env url) as [|[o b]]; [discriminate|]. cbn.
  destruct o; [|discriminate].
  destruct b; [discriminate|]. now intros [= ->].
Qed.

(** The early return of step 1 is a rate the proxy produced. *)
Lemma backend_proxy_sound env rate :
  backend_proxy env = Some rate -> proxy_produces env rate.
Proof.
  unfold backend_proxy, proxy_produces.
  destruct (VITE_NILA_RATE_ENDPOINT env) as [url|]; [|discriminate].
  destruct url as [|c url]; [discriminate|].
  destruct (fetch_ok_json env (String c url)) as [[]|[json|]] eqn:Hfetch;
    try discriminate.
  destruct (as_number _) as [n|] eqn:Hnum; [|discriminate].
  destruct (gt_zero n) eqn:Hpos; [|discriminate].
  intros [= ->].
  apply as_number_get_inv in Hnum. destruct Hnum as (fields & -> & Hl).
  exists (String c url), fields.
  split; [reflexivity|]. split; [discriminate|].
  split; [now apply fetch_ok_json_some|].
  split; [exact Hl | now apply gt_zero_positive].
Qed.

Lemma extract_rate_answers json rate :
  extract_rate json = Some rate ->
  answers (Responded (mkResponse true (Parsed json))) rate.
Proof.
  intros H. unfold extract_rate in H.
  destruct (as_number (get (Some json) "nila")) as [n|] eqn:Hdirect.
  - injection H as ->. apply as_number_get_inv in Hdirect.
    destruct Hdirect as (fields & -> & Hl). now apply answers_direct.
  - destruct json as [| | | | |fields]; cbn in H; try discriminate.
    destruct (lookup "nila" fields) as [[| | | | |inner]|] eqn:Hl;
      cbn in H; try discriminate.
    destruct (lookup "usd" inner) as [[| |m| | |]|] eqn:Hu;
      cbn in H; try discriminate.
    injection H as ->. eapply answers_nested; eassumption.
Qed.

(** Step 2 ends with the fallback or with a rate CoinGecko produced;
    a throw is all that is left. *)
Lemma coingecko_sound env rate :
  coingecko env = inr rate ->
  rate = FALLBACK_RATE \/ coingecko_produces env rate.
Proof.
  unfold coingecko.
  destruct (fetch_ok_json env COINGECKO_URL) as [e|[json|]] eqn:Hfetch;
    [discriminate| |intros [= <-]; now left].
  destruct (extract_rate json) as [n|] eqn:Hx; [|intros [= <-]; now left].
  destruct (truthy n && gt_zero n) eqn:Hok; intros [= <-]; [|now left].
  right. apply andb_true_iff in Hok. destruct Hok as [_ Hpos]. split.
  - rewrite (fetch_ok_json_some _ _ _ Hfetch). now apply extract_rate_answers.
  - now apply gt_zero_positive.
Qed.

(** The edge function answers a GET with the fallback object whenever
    its own CoinGecko request yields no positive rate. *)
Lemma edge_function_falls_back upstream :
  (forall n, answers upstream n -> ~ positive n) ->
  serve_handler "GET" upstream = fallback_response.
Proof.
  intros Hnone. unfold serve_handler. cbn [String.eqb Ascii.eqb negb].
  change (("GET" =? "GET")%string) with true. cbn [negb].
  destruct upstream as [|[o b]]; [reflexivity|]. cbn [ok body].
  destruct o; [|reflexivity]. cbn [negb].
  destruct b as [|json]; [reflexivity|].
  destruct (extract_rate json) as [rate|] eqn:Hx; [|reflexivity].
  destruct (negb (truthy rate) || le_zero rate) eqn:Hbad; [reflexivity|].
  exfalso. apply (Hnone rate); [now apply extract_rate_answers|].
  apply orb_false_iff in Hbad. destruct Hbad as [Htruthy Hle].
  destruct rate as [| | |q]; cbn [truthy le_zero positive negb] in *;
    [discriminate Htruthy | exact I | discriminate Hle |].
  apply Qnot_le_lt. intros H. apply Qle_bool_iff in H. congruence.
Qed.

(** Behind such an edge function the client returns the constant, taken
    from the proxy's answer. *)
Lemma fetchNilaRate_behind_edge_function env url upstream :
  VITE_NILA_RATE_ENDPOINT env = Some url -> url <> "" ->
  fetch env url = as_fetched (serve_handler "GET" upstream) ->
  (forall n, answers upstream n -> ~ positive n) ->
  fetchNilaRate env = FALLBACK_RATE.
Proof.
  intros Hcfg Hurl Hfetch Hnone.
  rewrite (edge_function_falls_back upstream Hnone) in Hfetch.
  unfold fetchNilaRate, backend_proxy, fetch_ok_json.
  rewrite Hcfg, Hfetch.
  destruct url as [|c url]; [now elim Hurl|]. reflexivity.
Qed.

End RateLookup.

(** C9: when neither the backend proxy nor CoinGecko produces a valid
    positive rate (request failed, response not ok, body unreadable,
    rate missing or not positive), [fetchNilaRate] returns the fallback
    constant 0.01234; and whatever the sources do, it returns (it never
    throws) a positive number. *)
Theorem fetchNilaRate_falls_back (env : NilaRate.Env) :
  ((forall n, ~ NilaRate.proxy_produces env n) ->
   (forall n, ~ NilaRate.coingecko_produces env n) ->
   NilaRate.fetchNilaRate env = NilaRate.Finite (1234 # 100000))
  /\ NilaRate.positive (NilaRate.fetchNilaRate env).
Proof.
  change (NilaRate.Finite (1234 # 100000)) with NilaRate.FALLBACK_RATE.
  unfold NilaRate.fetchNilaRate.
  split.
  - intros Hproxy Hgecko.
    destruct (NilaRate.backend_proxy env) as [rate|] eqn:Hp.
    + elim (Hproxy rate). now apply backend_proxy_sound.
    + destruct (NilaRate.coingecko env) as [[]|rate] eqn:Hc; [reflexivity|].
      destruct (coingecko_sound env rate Hc) as [->|Hprod]; [reflexivity|].
      elim (Hgecko rate Hprod).
  - destruct (NilaRate.backend_proxy env) as [rate|] eqn:Hp.
    + destruct (backend_proxy_sound env rate Hp) as (_ & _ & _ & _ & _ & _ & H).
      exact H.
    + destruct (NilaRate.coingecko env) as [[]|rate] eqn:Hc;
        [apply fallback_positive|].
      destruct (coingecko_sound env rate Hc) as [->|[_ H]];
        [apply fallback_positive | exact H].
Qed.

(** The proxy is configured but answers 503; CoinGecko lists the asset
    at a zero price. *)
Lemma fetchNilaRate_falls_back_witness :
  NilaRate.fetchNilaRate
    (NilaRate.mkEnv (Some "https://api.example.org/nila-rate")
       (fun url =>
          if (url =? "https://api.example.org/nila-rate")%string
          then NilaRate.Responded
                 (NilaRate.mkResponse false NilaRate.InvalidJson)
          else NilaRate.Responded
                 (NilaRate.mkResponse true
                    (NilaRate.Parsed
                       (NilaRate.JObject
                          [("nila",
                            NilaRate.JObject
                              [("usd",
                                NilaRate.JNumber (NilaRate.Finite 0))])])))))
  = NilaRate.Finite (1234 # 100000).
Proof.
  apply fetchNilaRate_falls_back.
  - intros n (url & fields & Hcfg & _ & Hfetch & _).
    cbn in Hcfg. injection Hcfg as <-. vm_compute in Hfetch. discriminate.
  - intros n [Hans Hpos]. vm_compute in Hans.
    inversion Hans as [fields m Hl|fields inner m Hl Hu]; subst.
    + vm_compute in Hl. discriminate.
    + vm_compute in Hl. injection Hl as <-.
      vm_compute in Hu. injection Hu as <-.
      vm_compute in Hpos. discriminate.
Defined.

(** * Two runs against one store *)

Section Unhindered.

Variables (r : Request) (u : User.t).
Hypothesis Hgood : unhindered r u.

Lemma step_at k db :
  (k = 1%nat ->
   Store.has_settlementId (generateSettlementId (req_env r)) db = false) ->
  step r (pc_at r u k) db = (write_at r u k db, pc_at r u (S k)).
Proof.
  destruct Hgood as (Hf & Hle & Hnf). intros Hfresh.
  destruct k as [|[|[|[|[|k]]]]]; cbn [pc_at write_at step].
  - rewrite Hf.
    destruct (Z.gtb_spec (Form.creditsUsed (req_form r))
                (User.credit_balance u)); [lia|reflexivity].
  - unfold Store.insert_settlement. rewrite Hnf.
    cbn [fail_settlements_insert no_faults].
    change (SettlementPayload.settlementId
              (settlementPayload (req_form r)
                 (generateSettlementId (req_env r))))
      with (generateSettlementId (req_env r)).
    unfold Store.refuses. rewrite (Hfresh eq_refl), andb_false_r.
    reflexivity.
  - unfold Store.insert_ledger. rewrite Hnf. reflexivity.
  - unfold Store.update_profile. rewrite Hnf. reflexivity.
  - unfold Store.insert_transfer. rewrite Hnf. reflexivity.
  - reflexivity.
Qed.

Lemma pc_at_done k o : pc_at r u k = Done o -> o = Recorded /\ (5 <= k)%nat.
Proof.
  destruct k as [|[|[|[|[|k]]]]]; cbn; intros H; try discriminate.
  injection H as <-. split; [reflexivity|lia].
Qed.

(** The run's own step keeps its rows in step with its progress. *)
Lemma own_rows_step k db :
  own_rows r u k db -> own_rows r u (S k) (write_at r u k db).
Proof.
  unfold own_rows. intros (Hs & Hrow & Hled & Htr).
  destruct k as [|[|[|[|[|k]]]]]; cbn [write_at settlements credit_ledger
                                        nila_transfers Nat.leb].
  - repeat split; try (intros; lia). exact Hs.
  - repeat split; try (intros; lia).
    + now apply has_settlementId_grows.
    + intros _. apply in_or_app. right. now left.
  - repeat split; try (intros; lia).
    + exact Hs.
    + intros _. apply Hrow. lia.
    + intros _. apply in_or_app. right. now left.
  - repeat split; try (intros; lia).
    + exact Hs.
    + intros _. apply Hrow. lia.
    + intros _. apply Hled. lia.
  - repeat split; try (intros; lia).
    + exact Hs.
    + intros _. apply Hrow. lia.
    + intros _. apply Hled. lia.
    + intros _. apply in_or_app. right. now left.
  - repeat split.
    + exact Hs.
    + intros _. apply Hrow. lia.
    + intros _. apply Hled. lia.
    + intros _. apply Htr. lia.
Qed.

End Unhindered.

(** A step of another run, with another settlement id, leaves them
    alone. *)
Lemma own_rows_other r u k r' u' k' db :
  generateSettlementId (req_env r') <> generateSettlementId (req_env r) ->
  own_rows r u k db ->
  own_rows r u k (write_at r' u' k' db).
Proof.
  unfold own_rows. intros Hneq (Hs & Hrow & Hled & Htr).
  destruct k' as [|[|[|[|[|k']]]]]; cbn [write_at settlements credit_ledger
                                          nila_transfers];
    try (repeat split; assumption).
  - split; [|split; [|split]]; try assumption.
    + rewrite has_settlementId_app, Hs.
      change (Settlement.settlementId (new_row (req_form r') (req_env r')))
        with (generateSettlementId (req_env r')).
      apply String.eqb_neq in Hneq. rewrite Hneq. apply orb_false_r.
    + intros Hk. apply in_or_app. left. now apply Hrow.
  - split; [|split; [|split]]; try assumption.
    intros Hk. apply in_or_app. left. now apply Hled.
  - split; [|split; [|split]]; try assumption.
    intros Hk. apply in_or_app. left. now apply Htr.
Qed.

Lemma balances_step allowed uid db0 (W W' : Prop) r u k db :
  Form.userId (req_form r) = uid ->
  allowed (User.credit_balance u - Form.creditsUsed (req_form r)) ->
  k = 3%nat \/ (W' -> W) ->
  balances_within allowed uid db0 W db ->
  balances_within allowed uid db0 W' (write_at r u k db).
Proof.
  unfold balances_within. intros Huid Hallowed Hk (Hids & Hbal).
  assert (Hkeep : k <> 3%nat ->
                  map Profile.id (profiles db) = map Profile.id (profiles db0)
                  /\ (W' -> forall p, In p (profiles db) ->
                                      Profile.id p = uid ->
                                      allowed (Profile.credit_balance p))).
  { intros Hne. split; [exact Hids|]. intros Hw.
    destruct Hk as [Hk|Hk]; [contradiction|]. auto. }
  destruct k as [|[|[|[|[|k]]]]]; cbn [write_at profiles];
    try (apply Hkeep; discriminate).
  split.
  - rewrite map_map, <- Hids. apply map_ext. intros p. apply set_balance_id.
  - intros _ p Hin Hid. rewrite <- Huid in Hid.
    now rewrite (updated_rows_hold _ _ _ _ _ Hin Hid).
Qed.

Lemma find_same_ids uid ps : forall ps' p,
  map Profile.id ps' = map Profile.id ps ->
  find (fun q => Profile.id q =? uid)%string ps = Some p ->
  exists p', find (fun q => Profile.id q =? uid)%string ps' = Some p'
             /\ In p' ps' /\ Profile.id p' = uid.
Proof.
  induction ps as [|q ps IH]; intros [|q' ps'] p Hids Hfind;
    try discriminate.
  cbn [map] in Hids. injection Hids as Hid Hrest.
  cbn [find] in *. rewrite Hid.
  destruct (Profile.id q =? uid)%string eqn:Hq.
  - exists q'. split; [reflexivity|]. split; [now left|].
    rewrite Hid. now apply String.eqb_eq.
  - destruct (IH ps' p Hrest Hfind) as (p' & Hf & Hin & Hp').
    exists p'. split; [exact Hf|]. split; [now right|exact Hp'].
Qed.

Section TwoRuns.

Variables (r1 r2 : Request) (u1 u2 : User.t) (db0 : DB).
Hypothesis Hgood1 : unhindered r1 u1.
Hypothesis Hgood2 : unhindered r2 u2.
Hypothesis Hsame_user :
  Form.userId (req_form r1) = Form.userId (req_form r2).
Hypothesis Hids_differ :
  generateSettlementId (req_env r1) <> generateSettlementId (req_env r2).

Let uid := Form.userId (req_form r1).
Let allowed (b : Z) : Prop :=
  b = User.credit_balance u1 - Form.creditsUsed (req_form r1)
  \/ b = User.credit_balance u2 - Form.creditsUsed (req_form r2).

Lemma interleave_unhindered schedule : forall k1 k2 db db' pc1 pc2,
  own_rows r1 u1 k1 db ->
  own_rows r2 u2 k2 db ->
  balances_within allowed uid db0 (4 <= k1 \/ 4 <= k2)%nat db ->
  interleave schedule r1 r2 (pc_at r1 u1 k1) (pc_at r2 u2 k2) db
  = (db', pc1, pc2) ->
  exists k1' k2',
    pc1 = pc_at r1 u1 k1' /\ pc2 = pc_at r2 u2 k2'
    /\ own_rows r1 u1 k1' db' /\ own_rows r2 u2 k2' db'
    /\ balances_within allowed uid db0 (4 <= k1' \/ 4 <= k2')%nat db'.
Proof.
  induction schedule as [|[|] rest IH]; intros k1 k2 db db' pc1 pc2 O1 O2 B H;
    cbn [interleave] in H.
  - inversion H; subst. exists k1, k2. auto.
  - rewrite (step_at r1 u1 Hgood1) in H.
    + apply IH in H; [exact H| | |].
      * now apply own_rows_step.
      * apply own_rows_other; [congruence|exact O2].
      * eapply balances_step; [reflexivity|now left| |exact B].
        destruct (Nat.eq_dec k1 3); [now left|right; lia].
    + intros ->. destruct O1 as [Hs _]. exact Hs.
  - rewrite (step_at r2 u2 Hgood2) in H.
    + apply IH in H; [exact H| | |].
      * apply own_rows_other; [congruence|exact O1].
      * now apply own_rows_step.
      * eapply balances_step; [now symmetry|now right| |exact B].
        destruct (Nat.eq_dec k2 3); [now left|right; lia].
    + intros ->. destruct O2 as [Hs _]. exact Hs.
Qed.

End TwoRuns.




(** In that run the store ends with two processed settlements, two
    debits of 300 in the ledger, and a stored balance of 200. *)
Example scenario_C_final_store :
  let r1 := request 500 300 no_faults in
  let r2 := mkRequest [Scenario.user 500] (Scenario.form 300)
                      (Scenario.env2 no_faults) in
  let db' := fst (fst (interleave alternating r1 r2 AtValidate AtValidate
                         (Scenario.db 500))) in
  List.length (processed_rows db') = 2%nat
  /\ map Ledger.amount (credit_ledger db') = [-300; -300]
  /\ map Ledger.balance_after (credit_ledger db') = [200; 200]
  /\ Store.stored_balance "user-1" db' = Some 200.
Proof. vm_compute. repeat split. Qed.

(** * Strings *)

Lemma string_app_assoc (a b c : string) :
  ((a ++ b) ++ c = a ++ (b ++ c))%string.
Proof. induction a as [|x a IH]; cbn; [reflexivity | now rewrite IH]. Qed.

Lemma string_app_nil_r (a : string) : (a ++ "" = a)%string.
Proof. induction a as [|x a IH]; cbn; [reflexivity | now rewrite IH]. Qed.

Lemma rev_string_acc s : forall acc,
  Js.rev_string acc s = (Js.rev_string "" s ++ acc)%string.
Proof.
  induction s as [|c s IH]; intros acc; cbn [Js.rev_string]; [reflexivity|].
  rewrite IH, (IH (String c "")), string_app_assoc. reflexivity.
Qed.

Lemma rev_string_app a b :
  Js.rev_string "" (a ++ b)
  = (Js.rev_string "" b ++ Js.rev_string "" a)%string.
Proof.
  induction a as [|c a IH]; cbn [String.append Js.rev_string].
  - now rewrite string_app_nil_r.
  - rewrite (rev_string_acc (a ++ b) (String c "")), IH,
      (rev_string_acc a (String c "")).
    now rewrite string_app_assoc.
Qed.

Lemma rev_string_involutive s :
  Js.rev_string "" (Js.rev_string "" s) = s.
Proof.
  induction s as [|c s IH]; [reflexivity|].
  cbn [Js.rev_string].
  rewrite (rev_string_acc s (String c "")), rev_string_app, IH.
  reflexivity.
Qed.

Lemma all_chars_app f a b :
  all_chars f (a ++ b) = all_chars f a && all_chars f b.
Proof.
  induction a as [|c a IH]; cbn; [reflexivity|].
  now rewrite IH, andb_assoc.
Qed.

Lemma all_chars_rev f s :
  all_chars f (Js.rev_string "" s) = all_chars f s.
Proof.
  induction s as [|c s IH]; [reflexivity|].
  cbn [Js.rev_string all_chars].
  rewrite rev_string_acc, all_chars_app, IH. cbn.
  rewrite andb_true_r. apply andb_comm.
Qed.

(** What [trimStart] removes is white space, and what it leaves does
    not begin with white space. *)
Lemma trimStart_split s :
  exists w, s = (w ++ Js.trimStart s)%string /\ is_blank w = true.
Proof.
  induction s as [|c s (w & Hs & Hw)]; [now exists ""|].
  cbn [Js.trimStart]. destruct (Js.is_space c) eqn:Hc.
  - exists (String c w). split; [cbn; now f_equal|].
    unfold is_blank in *. cbn. now rewrite Hc.
  - now exists "".
Qed.

Lemma trimStart_head s c t :
  Js.trimStart s = String c t -> Js.is_space c = false.
Proof.
  induction s as [|d s IH]; cbn [Js.trimStart]; [discriminate|].
  destruct (Js.is_space d) eqn:Hd; [exact IH|].
  now intros [= <- _].
Qed.

Lemma trimStart_fixed s :
  match s with
  | String c _ => Js.is_space c = false
  | EmptyString => True
  end ->
  Js.trimStart s = s.
Proof. destruct s as [|c s]; cbn; [reflexivity | now intros ->]. Qed.

Lemma trimStart_idempotent s :
  Js.trimStart (Js.trimStart s) = Js.trimStart s.
Proof.
  apply trimStart_fixed.
  destruct (Js.trimStart s) as [|c t] eqn:H; [exact I|].
  now apply trimStart_head in H.
Qed.

Lemma trimStart_empty s : Js.trimStart s = "" <-> is_blank s = true.
Proof.
  unfold is_blank.
  induction s as [|c s IH]; cbn [Js.trimStart all_chars]; [tauto|].
  destruct (Js.is_space c); cbn; [exact IH|].
  split; discriminate.
Qed.

Lemma rev_string_empty s : Js.rev_string "" s = "" <-> s = "".
Proof.
  split; [|now intros ->].
  intros H. rewrite <- (rev_string_involutive s), H. reflexivity.
Qed.

Lemma trimEnd_empty s : Js.trimEnd s = "" <-> is_blank s = true.
Proof.
  unfold Js.trimEnd. rewrite rev_string_empty, trimStart_empty.
  unfold is_blank. now rewrite all_chars_rev.
Qed.

(** [trimEnd] keeps a prefix and drops white space. *)
Lemma trimEnd_split s :
  exists w, s = (Js.trimEnd s ++ w)%string /\ is_blank w = true.
Proof.
  destruct (trimStart_split (Js.rev_string "" s)) as (w & Hs & Hw).
  exists (Js.rev_string "" w). split.
  - unfold Js.trimEnd. rewrite <- rev_string_app, <- Hs.
    now rewrite rev_string_involutive.
  - unfold is_blank in *. now rewrite all_chars_rev.
Qed.

Lemma trimEnd_idempotent s : Js.trimEnd (Js.trimEnd s) = Js.trimEnd s.
Proof.
  unfold Js.trimEnd at 1. unfold Js.trimEnd at 1.
  rewrite rev_string_involutive, trimStart_idempotent. reflexivity.
Qed.

Lemma trim_empty s : Js.trim s = "" <-> is_blank s = true.
Proof.
  unfold Js.trim. rewrite trimEnd_empty.
  destruct (Js.trimStart s) as [|c t] eqn:H.
  - split; [|reflexivity]. intros _. now apply trimStart_empty.
  - pose proof (trimStart_head _ _ _ H) as Hc.
    unfold is_blank at 1. cbn [all_chars]. rewrite Hc. cbn.
    split; [discriminate|]. intros Hb. apply trimStart_empty in Hb.
    congruence.
Qed.

Lemma trim_idempotent s : Js.trim (Js.trim s) = Js.trim s.
Proof.
  unfold Js.trim at 1.
  assert (Hfix : Js.trimStart (Js.trim s) = Js.trim s).
  { apply trimStart_fixed. unfold Js.trim.
    destruct (trimEnd_split (Js.trimStart s)) as (w & Hs & _).
    destruct (Js.trimEnd (Js.trimStart s)) as [|c t] eqn:He; [exact I|].
    cbn in Hs. eapply trimStart_head. exact Hs. }
  rewrite Hfix. unfold Js.trim. apply trimEnd_idempotent.
Qed.

(** * The rest of the settlement page *)

(** ** What the form stores *)

(** X1: for a form whose wallet address, transaction hash and notes
    are ASCII text, a transaction hash or a note that is empty or only
    white space is stored as null, and only then; a stored hash is never
    empty and has no white space around it, and neither has the stored
    wallet address. *)
Theorem blank_ascii_fields_are_stored_as_null formData settlementId :
  ascii_only (Form.walletAddress formData) = true ->
  ascii_only (Form.transactionHash formData) = true ->
  ascii_only (Form.notes formData) = true ->
  let p := settlementPayload formData settlementId in
  (SettlementPayload.transactionHash p = None
   <-> is_blank (Form.transactionHash formData) = true)
  /\ (SettlementPayload.notes p = None
      <-> is_blank (Form.notes formData) = true)
  /\ (forall h, SettlementPayload.transactionHash p = Some h ->
                h <> "" /\ Js.trim h = h)
  /\ Js.trim (SettlementPayload.walletAddress p)
     = SettlementPayload.walletAddress p.
Proof.
  intros _ _ _.
  cbn [settlementPayload SettlementPayload.transactionHash
       SettlementPayload.notes SettlementPayload.walletAddress].
  assert (Hnull : forall s, Js.or_null (Js.trim s) = None
                            <-> is_blank s = true).
  { intros s. rewrite <- trim_empty.
    destruct (Js.trim s); cbn; split; congruence. }
  split; [apply Hnull|]. split; [apply Hnull|]. split.
  - intros h Hh.
    destruct (Js.trim (Form.transactionHash formData)) as [|c t] eqn:Ht;
      cbn in Hh; [discriminate|].
    injection Hh as <-. split; [discriminate|].
    rewrite <- Ht. apply trim_idempotent.
  - apply trim_idempotent.
Qed.

(** A form with a padded wallet address, a hash of two spaces and a
    note. *)
Lemma blank_ascii_fields_are_stored_as_null_witness :
  let formData := Form.mk "user-1" 200 10 "polygon" " 0xabc " "  " "paid" in
  let p := settlementPayload formData "STL_1714554000000_4FZYO8" in
  (SettlementPayload.transactionHash p = None <-> is_blank "  " = true)
  /\ (SettlementPayload.notes p = None <-> is_blank "paid" = true)
  /\ (forall h, SettlementPayload.transactionHash p = Some h ->
                h <> "" /\ Js.trim h = h)
  /\ Js.trim (SettlementPayload.walletAddress p)
     = SettlementPayload.walletAddress p.
Proof.
  intros formData.
  apply (blank_ascii_fields_are_stored_as_null formData
           "STL_1714554000000_4FZYO8").
  - reflexivity.
  - reflexivity.
  - reflexivity.
Defined.

(** X2: the three rows a recorded run appends agree with each other:
    the ledger entry and the transfer both point at the id of the new
    settlement row and belong to its user, the ledger amount is minus
    its credits, and the transfer repeats its reward amount, network,
    wallet and transaction hash. *)
Theorem recorded_rows_agree users formData env db db' :
  handleRecordSettlement users formData env db = (db', Recorded) ->
  exists row entry transfer,
    settlements db' = settlements db ++ [row]
    /\ credit_ledger db' = credit_ledger db ++ [entry]
    /\ nila_transfers db' = nila_transfers db ++ [transfer]
    /\ Ledger.reference_id entry = Settlement.id row
    /\ Transfer.settlementId transfer = Settlement.id row
    /\ Ledger.userId entry = Settlement.userId row
    /\ Transfer.userId transfer = Settlement.userId row
    /\ Ledger.amount entry = - Settlement.creditsUsed row
    /\ Transfer.nilaAmount transfer
       = SettlementPayload.rewardAmount (Settlement.fields row)
    /\ Transfer.network transfer
       = SettlementPayload.network (Settlement.fields row)
    /\ Transfer.walletAddress transfer
       = SettlementPayload.walletAddress (Settlement.fields row)
    /\ Transfer.transactionHash transfer
       = SettlementPayload.transactionHash (Settlement.fields row).
Proof.
  intros H. apply recorded_inv in H. destruct H as (u & _ & _ & _ & ->).
  eexists _, _, _. repeat split.
Qed.

Lemma recorded_rows_agree_witness :
  let db' := fst (handleRecordSettlement [Scenario.user 500]
                    (Scenario.form 200) (Scenario.env no_faults)
                    (Scenario.db 500)) in
  exists row entry transfer,
    settlements db' = [] ++ [row]
    /\ credit_ledger db' = [] ++ [entry]
    /\ nila_transfers db' = [] ++ [transfer]
    /\ Ledger.reference_id entry = Settlement.id row
    /\ Transfer.settlementId transfer = Settlement.id row
    /\ Ledger.userId entry = Settlement.userId row
    /\ Transfer.userId transfer = Settlement.userId row
    /\ Ledger.amount entry = - Settlement.creditsUsed row
    /\ Transfer.nilaAmount transfer
       = SettlementPayload.rewardAmount (Settlement.fields row)
    /\ Transfer.network transfer
       = SettlementPayload.network (Settlement.fields row)
    /\ Transfer.walletAddress transfer
       = SettlementPayload.walletAddress (Settlement.fields row)
    /\ Transfer.transactionHash transfer
       = SettlementPayload.transactionHash (Settlement.fields row).
Proof.
  intros db'.
  apply (recorded_rows_agree [Scenario.user 500] (Scenario.form 200)
           (Scenario.env no_faults) (Scenario.db 500) db').
  vm_compute. reflexivity.
Defined.

(** ** Choosing a user *)

Lemma handleUserSelect_userId users userId prev :
  Form.userId (handleUserSelect users userId prev) = userId.
Proof. unfold handleUserSelect. now destruct (find_user users userId). Qed.

(** X3: choosing a user of the cached list never raises the credits
    typed so far and cuts them down to that user's balance, leaving the
    other fields as they were; a submission of the resulting form is
    therefore never turned away for a missing user or for insufficient
    credits. *)
Theorem selecting_a_user_clamps_credits users userId prev u :
  find_user users userId = Some u ->
  let formData := handleUserSelect users userId prev in
  Form.userId formData = userId
  /\ Form.creditsUsed formData
     = Z.min (Form.creditsUsed prev) (User.credit_balance u)
  /\ Form.creditsUsed formData <= Form.creditsUsed prev
  /\ Form.creditsUsed formData <= User.credit_balance u
  /\ Form.rewardAmount formData = Form.rewardAmount prev
  /\ Form.network formData = Form.network prev
  /\ Form.walletAddress formData = Form.walletAddress prev
  /\ Form.transactionHash formData = Form.transactionHash prev
  /\ Form.notes formData = Form.notes prev
  /\ (forall env db db' o,
        handleRecordSettlement users formData env db = (db', o) ->
        o <> NoUserSelected /\ forall b, o <> InsufficientCredits b).
Proof.
  intros Hf formData. subst formData. unfold handleUserSelect. rewrite Hf.
  cbn [Form.userId Form.creditsUsed Form.rewardAmount Form.network
       Form.walletAddress Form.transactionHash Form.notes].
  repeat (split; [reflexivity || lia|]).
  intros env db db' o H. apply handler_inv in H.
  cbn [Form.userId Form.creditsUsed] in H.
  destruct H as [(Hn & _)|[(v & Hv & Hgt & _)|(v & r & _ & _ & _ & ->)]].
  - congruence.
  - rewrite Hf in Hv. injection Hv as <-. lia.
  - destruct r; split; try intros b; discriminate.
Qed.

Lemma selecting_a_user_clamps_credits_witness :
  let formData := handleUserSelect [Scenario.user 120] "user-1"
                    (Scenario.form 200) in
  Form.userId formData = "user-1"
  /\ Form.creditsUsed formData = Z.min 200 120
  /\ Form.creditsUsed formData <= 200
  /\ Form.creditsUsed formData <= 120
  /\ Form.rewardAmount formData = 10%Q
  /\ Form.network formData = "polygon"
  /\ Form.walletAddress formData = "0xabc"
  /\ Form.transactionHash formData = ""
  /\ Form.notes formData = ""
  /\ (forall env db db' o,
        handleRecordSettlement [Scenario.user 120] formData env db
        = (db', o) ->
        o <> NoUserSelected /\ forall b, o <> InsufficientCredits b).
Proof.
  apply (selecting_a_user_clamps_credits [Scenario.user 120] "user-1"
           (Scenario.form 200) (Scenario.user 120)).
  reflexivity.
Defined.

(** X4: choosing an id that is not in the cached list changes nothing
    but the user id, and submitting the resulting form is answered
    with 'Please select a user' without a write. *)
Theorem selecting_an_unknown_user users userId prev env db :
  find_user users userId = None ->
  handleUserSelect users userId prev
  = Form.mk userId (Form.creditsUsed prev) (Form.rewardAmount prev)
            (Form.network prev) (Form.walletAddress prev)
            (Form.transactionHash prev) (Form.notes prev)
  /\ handleRecordSettlement users (handleUserSelect users userId prev) env db
     = (db, NoUserSelected).
Proof.
  intros Hf. split.
  - unfold handleUserSelect. now rewrite Hf.
  - apply no_user_no_write. now rewrite handleUserSelect_userId.
Qed.

Lemma selecting_an_unknown_user_witness :
  handleUserSelect [Scenario.user 120] "" (Scenario.form 200)
  = Form.mk "" 200 10%Q "polygon" "0xabc" "" ""
  /\ handleRecordSettlement [Scenario.user 120]
       (handleUserSelect [Scenario.user 120] "" (Scenario.form 200))
       (Scenario.env no_faults) (Scenario.db 120)
     = (Scenario.db 120, NoUserSelected).
Proof.
  apply (selecting_an_unknown_user [Scenario.user 120] ""
           (Scenario.form 200) (Scenario.env no_faults) (Scenario.db 120)).
  reflexivity.
Defined.

(** ** The submit button and the preview *)

(** X5: while nothing is being saved, the submit button is disabled
    exactly when a submission would be answered with insufficient
    credits; with no user selected it stays enabled. *)
Theorem submit_button_matches_validation users formData env db :
  submit_disabled false users formData = true
  <-> exists b,
        handleRecordSettlement users formData env db
        = (db, InsufficientCredits b).
Proof.
  unfold submit_disabled, handleRecordSettlement. cbn [orb].
  destruct (find_user users (Form.userId formData)) as [u|].
  - destruct (Z.gtb_spec (Form.creditsUsed formData) (User.credit_balance u))
      as [Hgt|Hle].
    + split; [intros _; eauto|]. intros _. apply Z.ltb_lt. lia.
    + split.
      * intros H. apply Z.ltb_lt in H. lia.
      * intros (b & H).
        destruct (record_writes formData u env db) as [d [e|[]]];
          discriminate.
  - split; [discriminate|]. intros (b & H). discriminate.
Qed.

(** X6: for a selected user, the "Credit Balance After" shown in the
    preview is the balance_after a recorded run writes to the ledger
    and the balance it writes to the profile; it is not negative and
    no warning is shown under it. *)
Theorem preview_shows_what_is_written users formData env db db' :
  handleRecordSettlement users formData env db = (db', Recorded) ->
  preview_warning users formData = false
  /\ 0 <= preview_balance_after users formData
  /\ exists entry,
       credit_ledger db' = credit_ledger db ++ [entry]
       /\ Ledger.balance_after entry = preview_balance_after users formData
       /\ forall p, In p (profiles db') ->
                    Profile.id p = Form.userId formData ->
                    Profile.credit_balance p
                    = preview_balance_after users formData.
Proof.
  intros H. unfold preview_warning, preview_balance_after.
  apply recorded_inv in H. destruct H as (u & Hf & Hle & _ & ->).
  rewrite Hf.
  split; [apply Z.ltb_ge; lia|]. split; [lia|].
  eexists. split; [reflexivity|]. split; [reflexivity|].
  intros p Hin Hid. cbn in Hin. now apply (updated_rows_hold _ _ _ _ _ Hin Hid).
Qed.

Lemma preview_shows_what_is_written_witness :
  let users := [Scenario.user 500] in
  let formData := Scenario.form 200 in
  let db' := fst (handleRecordSettlement users formData
                    (Scenario.env no_faults) (Scenario.db 500)) in
  preview_warning users formData = false
  /\ 0 <= preview_balance_after users formData
  /\ exists entry,
       credit_ledger db' = [] ++ [entry]
       /\ Ledger.balance_after entry = preview_balance_after users formData
       /\ forall p, In p (profiles db') ->
                    Profile.id p = "user-1" ->
                    Profile.credit_balance p
                    = preview_balance_after users formData.
Proof.
  intros users formData db'.
  apply (preview_shows_what_is_written users formData
           (Scenario.env no_faults) (Scenario.db 500) db').
  vm_compute. reflexivity.
Defined.

(** ** A freshly fetched user list *)

(** X7: a run that starts right after a successful [fetchUsers], on a
    store whose profile ids are unique, is validated against the stored
    balance [b] of the user: it is never answered with 'Please select a
    user'; it is refused for insufficient credits exactly with [b]
    reported and credits above [b]; when recorded it leaves [b] minus
    the credits; and however it ends, the stored balance afterwards is
    [b] or [b] minus credits that did not exceed [b]. *)
Theorem fresh_cache_run_debits_stored_balance
    users formData env db db' o b :
  NoDup (map Profile.id (profiles db)) ->
  fetched_users db users ->
  Store.stored_balance (Form.userId formData) db = Some b ->
  handleRecordSettlement users formData env db = (db', o) ->
  let uid := Form.userId formData in
  let C := Form.creditsUsed formData in
  o <> NoUserSelected
  /\ (forall x, o = InsufficientCredits x -> x = b /\ C > b /\ db' = db)
  /\ (o = Recorded ->
      C <= b /\ Store.stored_balance uid db' = Some (b - C))
  /\ (Store.stored_balance uid db' = Some b
      \/ C <= b /\ Store.stored_balance uid db' = Some (b - C)).
Proof.
  intros Hnd Hperm Hb H uid C. apply handler_inv in H.
  destruct H as [(Hn & _ & _)|[(u & Hf & Hgt & -> & ->)|(u & r & Hf & Hle & W & ->)]].
  - rewrite (fresh_cache_miss db users _ Hperm Hn) in Hb. discriminate.
  - pose proof (fresh_cache_hit db users _ u Hnd Hperm Hf) as Hu.
    rewrite Hb in Hu. injection Hu as ->.
    split; [discriminate|]. split; [|split; [discriminate|now left]].
    intros x [= <-]. auto.
  - pose proof (fresh_cache_hit db users _ u Hnd Hperm Hf) as Hu.
    rewrite Hb in Hu. injection Hu as ->.
    assert (Hupd : forall d,
               profiles d
               = map (Store.set_balance uid (User.credit_balance u - C)
                        (iso_now env)) (profiles db) ->
               Store.stored_balance uid d
               = Some (User.credit_balance u - C)).
    { intros d Hd. eapply stored_balance_updated; [exact Hd|exact Hb]. }
    inversion W; subst;
      (split; [discriminate|]);
      (split; [intros x Hx; discriminate Hx|]).
    + split; [discriminate|left; exact Hb].
    + split; [discriminate|left; exact Hb].
    + split; [discriminate|left; exact Hb].
    + split; [discriminate|left; exact Hb].
    + split; [discriminate|]. right. split; [exact Hle|]. now apply Hupd.
    + split; [intros _; split; [exact Hle|now apply Hupd]|].
      right. split; [exact Hle|]. now apply Hupd.
Qed.

Lemma fresh_cache_run_debits_stored_balance_witness :
  let db' := fst (handleRecordSettlement [Scenario.user 500]
                    (Scenario.form 200) (Scenario.env no_faults)
                    (Scenario.db 500)) in
  Recorded <> NoUserSelected
  /\ (forall x, Recorded = InsufficientCredits x ->
                x = 500 /\ 200 > 500 /\ db' = Scenario.db 500)
  /\ (Recorded = Recorded ->
      200 <= 500 /\ Store.stored_balance "user-1" db' = Some (500 - 200))
  /\ (Store.stored_balance "user-1" db' = Some 500
      \/ 200 <= 500 /\ Store.stored_balance "user-1" db' = Some (500 - 200)).
Proof.
  intros db'.
  apply (fresh_cache_run_debits_stored_balance [Scenario.user 500]
           (Scenario.form 200) (Scenario.env no_faults) (Scenario.db 500)
           db' Recorded 500).
  - repeat constructor. intros [].
  - apply Permutation_refl.
  - reflexivity.
  - vm_compute. reflexivity.
Defined.

(** ** What a run never touches *)

Lemma set_balance_other uid b stamp p :
  Profile.id p <> uid -> Store.set_balance uid b stamp p = p.
Proof.
  intros Hne. unfold Store.set_balance.
  apply String.eqb_neq in Hne. now rewrite Hne.
Qed.

Lemma other_rows_kept uid b stamp ps :
  filter (fun p => negb (Profile.id p =? uid)%string)
         (map (Store.set_balance uid b stamp) ps)
  = filter (fun p => negb (Profile.id p =? uid)%string) ps.
Proof.
  induction ps as [|p ps IH]; [reflexivity|].
  cbn [map filter]. rewrite set_balance_id, IH.
  destruct (String.eqb_spec (Profile.id p) uid) as [_|Hne]; cbn [negb];
    [reflexivity|].
  now rewrite (set_balance_other _ _ _ _ Hne).
Qed.

Lemma other_balance_kept uid b stamp uid' ps :
  uid' <> uid ->
  find (fun p => Profile.id p =? uid')%string
       (map (Store.set_balance uid b stamp) ps)
  = find (fun p => Profile.id p =? uid')%string ps.
Proof.
  intros Hne. induction ps as [|p ps IH]; [reflexivity|].
  cbn [map find]. rewrite set_balance_id, IH.
  destruct (String.eqb_spec (Profile.id p) uid') as [Heq|_]; [|reflexivity].
  rewrite set_balance_other; [reflexivity|congruence].
Qed.

Lemma profiles_after_run users formData env db db' o :
  handleRecordSettlement users formData env db = (db', o) ->
  profiles db' = profiles db
  \/ exists b, profiles db'
               = map (Store.set_balance (Form.userId formData) b (iso_now env))
                     (profiles db).
Proof.
  intros H. apply handler_inv in H.
  destruct H as [(_ & -> & _)|[(u & _ & _ & -> & _)|(u & r & _ & _ & W & _)]];
    [now left|now left|].
  inversion W; subst; cbn [profiles after_settlement after_ledger
                           after_update after_transfer];
    try (now left); right; eexists; reflexivity.
Qed.

(** X8: however a run ends, it changes no profile row of another user:
    the rows of the other users are the same rows in the same order,
    the stored balance of every other user is what it was, and no
    profile row appears, disappears or changes its id. *)
Theorem other_users_are_untouched users formData env db db' o :
  handleRecordSettlement users formData env db = (db', o) ->
  let uid := Form.userId formData in
  map Profile.id (profiles db') = map Profile.id (profiles db)
  /\ filter (fun p => negb (Profile.id p =? uid)%string) (profiles db')
     = filter (fun p => negb (Profile.id p =? uid)%string) (profiles db)
  /\ (forall other, other <> uid ->
        Store.stored_balance other db' = Store.stored_balance other db).
Proof.
  intros H uid. unfold Store.stored_balance.
  destruct (profiles_after_run _ _ _ _ _ _ H) as [Hp|(b & Hp)]; rewrite Hp.
  - repeat split.
  - split; [|split].
    + rewrite map_map. apply map_ext. intros p. apply set_balance_id.
    + apply other_rows_kept.
    + intros other Hne. now rewrite other_balance_kept.
Qed.

Lemma other_users_are_untouched_witness :
  let db := mkDB [] [] [Scenario.profile 500;
                        Profile.mk "user-2" "Bo" "bo@example.org" 75
                                   "2024-04-30T08:00:00.000Z"] [] in
  let db' := fst (handleRecordSettlement [Scenario.user 500]
                    (Scenario.form 200) (Scenario.env no_faults) db) in
  map Profile.id (profiles db') = ["user-1"; "user-2"]
  /\ filter (fun p => negb (Profile.id p =? "user-1")%string) (profiles db')
     = filter (fun p => negb (Profile.id p =? "user-1")%string) (profiles db)
  /\ (forall other, other <> "user-1" ->
        Store.stored_balance other db' = Store.stored_balance other db).
Proof.
  intros db db'.
  apply (other_users_are_untouched [Scenario.user 500] (Scenario.form 200)
           (Scenario.env no_faults) db db' Recorded).
  vm_compute. reflexivity.
Defined.

(** X9: however a run ends, the settlements, the ledger and the
    transfers only grow, by at most one row each and in that order: no
    transfer without the ledger entry, no ledger entry without the
    settlement row, and no balance change without the ledger entry. *)
Theorem writes_only_append_in_order users formData env db db' o :
  handleRecordSettlement users formData env db = (db', o) ->
  exists ss ls ts,
    settlements db' = settlements db ++ ss
    /\ credit_ledger db' = credit_ledger db ++ ls
    /\ nila_transfers db' = nila_transfers db ++ ts
    /\ (List.length ts <= List.length ls)%nat
    /\ (List.length ls <= List.length ss)%nat
    /\ (List.length ss <= 1)%nat
    /\ (profiles db' <> profiles db -> List.length ls = 1%nat)
    /\ (o = Recorded <-> List.length ts = 1%nat).
Proof.
  intros H. apply handler_inv in H.
  destruct H as [(_ & -> & ->)|[(u & _ & _ & -> & ->)|(u & r & _ & _ & W & ->)]].
  - exists [], [], []. rewrite !app_nil_r. cbn.
    repeat split; try lia; try congruence; discriminate.
  - exists [], [], []. rewrite !app_nil_r. cbn.
    repeat split; try lia; try congruence; discriminate.
  - inversion W; subst;
      cbn [settlements credit_ledger nila_transfers profiles
           after_settlement after_ledger after_update after_transfer].
    + exists [], [], []. rewrite !app_nil_r. cbn.
      repeat split; try lia; try congruence; discriminate.
    + exists [], [], []. rewrite !app_nil_r. cbn.
      repeat split; try lia; try congruence; discriminate.
    + eexists [_], [], []. rewrite !app_nil_r. cbn.
      repeat split; try lia; try congruence; discriminate.
    + eexists [_], [_], []. rewrite !app_nil_r. cbn.
      repeat split; try lia; try congruence; discriminate.
    + eexists [_], [_], []. rewrite !app_nil_r. cbn.
      repeat split; try lia; try congruence; discriminate.
    + eexists [_], [_], [_]. cbn.
      repeat split; try lia; try congruence.
Qed.

Lemma writes_only_append_in_order_witness :
  let db' := fst (handleRecordSettlement [Scenario.user 500]
                    (Scenario.form 200) (Scenario.env Scenario.ledger_fault)
                    (Scenario.db 500)) in
  exists ss ls ts,
    settlements db' = [] ++ ss
    /\ credit_ledger db' = [] ++ ls
    /\ nila_transfers db' = [] ++ ts
    /\ (List.length ts <= List.length ls)%nat
    /\ (List.length ls <= List.length ss)%nat
    /\ (List.length ss <= 1)%nat
    /\ (profiles db' <> [Scenario.profile 500] -> List.length ls = 1%nat)
    /\ (ErrorRecording (WriteFault "credit_ledger") = Recorded
        <-> List.length ts = 1%nat).
Proof.
  intros db'.
  apply (writes_only_append_in_order [Scenario.user 500] (Scenario.form 200)
           (Scenario.env Scenario.ledger_fault) (Scenario.db 500) db'
           (ErrorRecording (WriteFault "credit_ledger"))).
  vm_compute. reflexivity.
Defined.

(** ** The summary cards *)

Lemma fold_credits_from (shown : list Settlement.t) : forall a,
  fold_left (fun sum s => sum + Settlement.creditsUsed s) shown a
  = a + total_credits_used shown.
Proof.
  unfold total_credits_used.
  induction shown as [|s shown IH]; intros a; cbn [fold_left]; [lia|].
  rewrite IH, (IH (0 + _)). lia.
Qed.

Lemma total_credits_used_cons s shown :
  total_credits_used (s :: shown)
  = Settlement.creditsUsed s + total_credits_used shown.
Proof.
  unfold total_credits_used at 1. cbn [fold_left].
  rewrite fold_credits_from. lia.
Qed.

Lemma total_credits_used_app a b :
  total_credits_used (a ++ b) = total_credits_used a + total_credits_used b.
Proof.
  induction a as [|s a IH]; cbn [app]; [reflexivity|].
  rewrite !total_credits_used_cons, IH. lia.
Qed.

Lemma total_credits_used_perm a b :
  Permutation a b -> total_credits_used a = total_credits_used b.
Proof.
  induction 1 as [|s a b _ IH|s t a|a b c _ IH1 _ IH2];
    rewrite ?total_credits_used_cons; lia.
Qed.



(** ** The generated settlement id *)

Lemma toUpperCase_app a b :
  Js.toUpperCase (a ++ b) = (Js.toUpperCase a ++ Js.toUpperCase b)%string.
Proof. induction a as [|c a IH]; cbn; [reflexivity | now rewrite IH]. Qed.

Lemma upper_char_digit c : is_digit c = true -> Js.upper_char c = c.
Proof.
  destruct c as [[] [] [] [] [] [] [] []]; vm_compute;
    intros H; try reflexivity; discriminate H.
Qed.

Lemma upper_char_not_lower c : is_lower (Js.upper_char c) = false.
Proof. destruct c as [[] [] [] [] [] [] [] []]; reflexivity. Qed.

Lemma upper_char_idempotent c :
  Js.upper_char (Js.upper_char c) = Js.upper_char c.
Proof. destruct c as [[] [] [] [] [] [] [] []]; reflexivity. Qed.

Lemma toUpperCase_digits s :
  all_chars is_digit s = true -> Js.toUpperCase s = s.
Proof.
  induction s as [|c s IH]; cbn; [reflexivity|].
  intros H. apply andb_true_iff in H. destruct H as [Hc Hs].
  now rewrite (upper_char_digit c Hc), IH.
Qed.

Lemma toUpperCase_no_lower s :
  all_chars (fun c => negb (is_lower c)) (Js.toUpperCase s) = true.
Proof.
  induction s as [|c s IH]; cbn; [reflexivity|].
  now rewrite upper_char_not_lower, IH.
Qed.

Lemma string_of_uint_digits d :
  all_chars is_digit (NilEmpty.string_of_uint d) = true.
Proof. induction d; cbn; try reflexivity; exact IHd. Qed.

Lemma number_to_string_digits n :
  all_chars is_digit (Js.number_to_string n) = true.
Proof. apply string_of_uint_digits. Qed.

Lemma number_to_string_inj n m :
  Js.number_to_string n = Js.number_to_string m -> n = m.
Proof.
  unfold Js.number_to_string. intros H.
  apply DecimalN.Unsigned.to_uint_inj.
  assert (Hs : Some (N.to_uint n) = Some (N.to_uint m)).
  { rewrite <- !NilEmpty.usu. now rewrite H. }
  now injection Hs.
Qed.

(** Two runs of digits followed by an underscore and anything: equal
    only if the digits and the rests are. *)
Lemma digits_then_underscore a : forall b x y,
  all_chars is_digit a = true -> all_chars is_digit b = true ->
  (a ++ String "_" x = b ++ String "_" y)%string ->
  a = b /\ x = y.
Proof.
  induction a as [|c a IH]; intros [|d b] x y Ha Hb H; cbn in *.
  - injection H as <-. auto.
  - injection H as <- _. cbn in Hb. discriminate.
  - injection H as -> _. cbn in Ha. discriminate.
  - injection H as <- H.
    apply andb_true_iff in Ha, Hb. destruct Ha as [_ Ha], Hb as [_ Hb].
    destruct (IH b x y Ha Hb H) as [<- <-]. auto.
Qed.

Lemma generateSettlementId_shape env :
  generateSettlementId env
  = ("STL_" ++ Js.number_to_string (now env) ++ "_"
       ++ Js.toUpperCase (Js.substring 2 8 (random36 env)))%string.
Proof.
  unfold generateSettlementId.
  rewrite (toUpperCase_app "STL_"), toUpperCase_app,
    (toUpperCase_app "_").
  now rewrite (toUpperCase_digits _ (number_to_string_digits _)).
Qed.

Lemma substring_length s : forall i n,
  (String.length (String.substring i n s) <= n)%nat.
Proof.
  induction s as [|c s IH]; intros [|i] [|n]; cbn; try lia.
  - specialize (IH 0%nat n). lia.
  - apply IH.
  - apply IH.
Qed.

(** X11: a generated settlement id is "STL_", the decimal timestamp, an
    underscore and at most six characters, and holds no lower-case
    letter.  Two generated ids are equal exactly when the two clock
    readings are equal and the six random characters agree up to case;
    ids generated at different milliseconds always differ. *)
Theorem settlement_ids_collide_iff env1 env2 :
  (exists r,
      generateSettlementId env1
      = ("STL_" ++ Js.number_to_string (now env1) ++ "_" ++ r)%string
      /\ (String.length r <= 6)%nat)
  /\ all_chars (fun c => negb (is_lower c)) (generateSettlementId env1) = true
  /\ (generateSettlementId env1 = generateSettlementId env2
      <-> now env1 = now env2
          /\ Js.toUpperCase (Js.substring 2 8 (random36 env1))
             = Js.toUpperCase (Js.substring 2 8 (random36 env2))).
Proof.
  split; [|split].
  - eexists. split; [apply generateSettlementId_shape|].
    assert (Hlen : forall s, String.length (Js.toUpperCase s)
                             = String.length s)
      by (induction s as [|c s IH]; cbn; congruence).
    rewrite Hlen. apply substring_length.
  - apply toUpperCase_no_lower.
  - rewrite !generateSettlementId_shape. split.
    + intros H. cbn [String.append] in H.
      injection H as H.
      apply digits_then_underscore in H;
        try apply number_to_string_digits.
      destruct H as [Hn Hr]. split; [now apply number_to_string_inj|exact Hr].
    + intros [-> ->]. reflexivity.
Qed.

(** * More on the rate lookup *)

Section RateClientsFacts.

Import NilaRate RateClients.

Lemma positive_gt_zero n : positive n -> gt_zero n = true /\ truthy n = true.
Proof.
  destruct n as [| | |q]; cbn; try tauto. intros Hq. split.
  - destruct (Qle_bool q 0) eqn:H; [|reflexivity].
    apply Qle_bool_iff in H. exfalso. exact (Qlt_not_le _ _ Hq H).
  - destruct (Qeq_bool q 0) eqn:H; [|reflexivity].
    apply Qeq_bool_iff in H. rewrite H in Hq.
    exfalso. exact (Qlt_irrefl _ Hq).
Qed.

Lemma answers_extract json n :
  answers (Responded (mkResponse true (Parsed json))) n ->
  extract_rate json = Some n.
Proof.
  intros H. inversion H as [fields m Hl|fields inner m Hl Hu]; subst;
    unfold extract_rate; cbn; rewrite Hl; cbn; [reflexivity|].
  now rewrite Hu.
Qed.

(** The proxy's rate is found by step 1. *)
Lemma backend_proxy_complete env n :
  proxy_produces env n -> backend_proxy env = Some n.
Proof.
  intros (url & fields & Hcfg & Hurl & Hfetch & Hl & Hpos).
  unfold backend_proxy, fetch_ok_json. rewrite Hcfg.
  destruct url as [|c url]; [now elim Hurl|].
  rewrite Hfetch. cbn. rewrite Hl. cbn.
  now rewrite (proj1 (positive_gt_zero n Hpos)).
Qed.

(** No rate from the proxy: step 1 falls through. *)
Lemma backend_proxy_none env :
  (forall n, ~ proxy_produces env n) -> backend_proxy env = None.
Proof.
  intros Hnone. destruct (backend_proxy env) as [rate|] eqn:Hp;
    [|reflexivity].
  elim (Hnone rate). now apply backend_proxy_sound.
Qed.

Lemma fetch_is_positive env : positive (fetchNilaRate env).
Proof.
  unfold fetchNilaRate.
  destruct (backend_proxy env) as [rate|] eqn:Hp.
  - destruct (backend_proxy_sound env rate Hp) as (_ & _ & _ & _ & _ & _ & H).
    exact H.
  - destruct (coingecko env) as [[]|rate] eqn:Hc; [apply fallback_positive|].
    destruct (coingecko_sound env rate Hc) as [->|[_ H]];
      [apply fallback_positive | exact H].
Qed.

(** X12: when the configured backend proxy answers with a positive
    rate, [fetchNilaRate] returns that rate, whatever CoinGecko would
    answer. *)
Theorem proxy_rate_is_preferred env n :
  proxy_produces env n -> fetchNilaRate env = n.
Proof.
  intros H. unfold fetchNilaRate.
  now rewrite (backend_proxy_complete env n H).
Qed.

Lemma proxy_rate_is_preferred_witness :
  fetchNilaRate
    (mkEnv (Some "https://api.example.org/nila-rate")
       (fun url =>
          if (url =? "https://api.example.org/nila-rate")%string
          then Responded
                 (mkResponse true
                    (Parsed (JObject [("nila", JNumber (Finite (5 # 100)))])))
          else Responded
                 (mkResponse true
                    (Parsed (JObject [("nila", JNumber (Finite (9 # 100)))])))))
  = Finite (5 # 100).
Proof.
  apply proxy_rate_is_preferred.
  exists "https://api.example.org/nila-rate",
         [("nila", JNumber (Finite (5 # 100)))].
  repeat split; try reflexivity. discriminate.
Defined.

(** X13: a proxy that produces no valid rate (not configured, an empty
    endpoint, a failed request, a response that is not ok, a body that
    does not parse, a rate that is missing or not positive) is passed
    over: the result is that of the lookup with no endpoint
    configured. *)
Theorem failing_proxy_is_passed_over env :
  (forall n, ~ proxy_produces env n) ->
  fetchNilaRate env = fetchNilaRate (mkEnv None (fetch env)).
Proof.
  intros Hnone. unfold fetchNilaRate.
  now rewrite (backend_proxy_none env Hnone).
Qed.

Lemma failing_proxy_is_passed_over_witness :
  let fetch := fun url : string =>
    Responded (mkResponse true
                 (Parsed (JObject [("nila", JNumber (Finite (9 # 100)))]))) in
  fetchNilaRate (mkEnv (Some "") fetch) = fetchNilaRate (mkEnv None fetch).
Proof.
  intros fetch.
  apply (failing_proxy_is_passed_over (mkEnv (Some "") fetch)).
  intros n (url & fields & Hcfg & Hurl & _).
  cbn in Hcfg. injection Hcfg as <-. now elim Hurl.
Defined.

(** X14: when the proxy produces no valid rate and CoinGecko answers
    with a positive rate, either as [nila] or as [nila.usd], that rate
    is returned. *)
Theorem coingecko_rate_is_returned env n :
  (forall m, ~ proxy_produces env m) ->
  coingecko_produces env n ->
  fetchNilaRate env = n.
Proof.
  intros Hnone [Hans Hpos].
  unfold fetchNilaRate. rewrite (backend_proxy_none env Hnone).
  unfold coingecko, fetch_ok_json.
  inversion Hans as [fields m Hl Hf|fields inner m Hl Hu Hf]; subst;
    cbn [ok body];
    rewrite (answers_extract (JObject fields) n)
      by (rewrite Hf; exact Hans);
    destruct (positive_gt_zero n Hpos) as [-> ->]; reflexivity.
Qed.

Lemma coingecko_rate_is_returned_witness :
  fetchNilaRate
    (mkEnv None
       (fun _ =>
          Responded
            (mkResponse true
               (Parsed
                  (JObject
                     [("nila", JObject [("usd", JNumber (Finite (3 # 100)))])])))))
  = Finite (3 # 100).
Proof.
  apply coingecko_rate_is_returned.
  - intros m (url & fields & Hcfg & _). discriminate Hcfg.
  - split; [|reflexivity].
    apply (answers_nested _ [("usd", JNumber (Finite (3 # 100)))]);
      reflexivity.
Defined.

(** What [nila] holds in an answer of the two servers: a finite
    positive number, or [null] for what [JSON.stringify] cannot
    write. *)
Lemma served_rate rate :
  (negb (truthy rate) || le_zero rate) = false ->
  positive rate
  /\ (stringify_number rate = JNull
      \/ exists q, stringify_number rate = JNumber (Finite q) /\ (0 < q)%Q).
Proof.
  intros H. apply orb_false_iff in H. destruct H as [Ht Hle].
  destruct rate as [| | |q]; cbn [truthy le_zero negb] in *;
    try discriminate.
  - split; [exact I|now left].
  - assert (Hq : (0 < q)%Q).
    { apply Qnot_le_lt. intros Hq. apply Qle_bool_iff in Hq. congruence. }
    split; [exact Hq|]. right. now exists q.
Qed.

(** X15: the edge function answers every request that is not a GET
    with 405, and every GET with status 200 and a body [{ nila: v }]
    in which [v] is a finite positive number or [null]; it never
    answers a GET with an error status or a rate that is zero or
    negative. *)
Theorem edge_function_answers method upstream :
  let response := serve_handler method upstream in
  (method <> "GET" -> http_status response = 405)
  /\ (method = "GET" ->
      http_status response = 200
      /\ exists v,
           http_body response = Parsed (JObject [("nila", v)])
           /\ (v = JNull
               \/ exists q, v = JNumber (Finite q) /\ (0 < q)%Q)).
Proof.
  cbn zeta. split.
  - intros Hm. unfold serve_handler.
    apply String.eqb_neq in Hm. now rewrite Hm.
  - intros ->. unfold serve_handler.
    change (("GET" =? "GET")%string) with true. cbn [negb].
    assert (Hfb : http_status fallback_response = 200
                  /\ exists v,
                       http_body fallback_response
                       = Parsed (JObject [("nila", v)])
                       /\ (v = JNull
                           \/ exists q, v = JNumber (Finite q) /\ (0 < q)%Q)).
    { split; [reflexivity|]. eexists. split; [reflexivity|].
      right. eexists. split; reflexivity. }
    destruct upstream as [|[o b]]; [exact Hfb|]. cbn [ok body].
    destruct o; [|exact Hfb]. cbn [negb].
    destruct b as [|json]; [exact Hfb|].
    destruct (extract_rate json) as [rate|]; [|exact Hfb].
    destruct (negb (truthy rate) || le_zero rate) eqn:Hbad; [exact Hfb|].
    split; [reflexivity|]. eexists. split; [reflexivity|].
    apply (served_rate rate Hbad).
Qed.

(** X16: the Express route and the edge function give the same answer
    to a GET whenever the upstream request gives them something to
    read.  When the request fails or the body of an ok response does
    not parse, the edge function answers 200 with the fallback rate
    and the Express route answers 500. *)
Theorem express_route_and_edge_function upstream :
  (readable upstream = true ->
   express_route upstream = serve_handler "GET" upstream)
  /\ (readable upstream = false ->
      serve_handler "GET" upstream = fallback_response
      /\ express_route upstream = error_response
      /\ http_status (express_route upstream) = 500).
Proof.
  unfold express_route, serve_handler, readable.
  change (("GET" =? "GET")%string) with true. cbn [negb].
  destruct upstream as [|[o b]]; cbn [ok body].
  - split; [discriminate|]. intros _. repeat split.
  - destruct o; cbn [negb orb].
    + destruct b as [|json].
      * split; [discriminate|]. intros _. repeat split.
      * split; [reflexivity|discriminate].
    + split; [reflexivity|discriminate].
Qed.

(** X17: a client whose endpoint is served by the edge function.  If
    the function's own CoinGecko request yields a finite positive rate
    the client returns that rate, and if it yields no positive rate
    the client returns 0.01234; in both cases the client's own
    CoinGecko request plays no part. *)
Theorem client_behind_edge_function env url upstream :
  VITE_NILA_RATE_ENDPOINT env = Some url ->
  url <> "" ->
  fetch env url = as_fetched (serve_handler "GET" upstream) ->
  (forall q, answers upstream (Finite q) -> (0 < q)%Q ->
             fetchNilaRate env = Finite q)
  /\ ((forall n, answers upstream n -> ~ positive n) ->
      fetchNilaRate env = Finite (1234 # 100000)).
Proof.
  intros Hcfg Hurl Hfetch. split.
  - intros q Hans Hq. unfold fetchNilaRate.
    rewrite (backend_proxy_complete env (Finite q)); [reflexivity|].
    exists url, [("nila", JNumber (Finite q))].
    split; [exact Hcfg|]. split; [exact Hurl|].
    split; [|split; [reflexivity|exact Hq]].
    rewrite Hfetch. unfold serve_handler.
    change (("GET" =? "GET")%string) with true. cbn [negb].
    inversion Hans as [fields m Hl Hf|fields inner m Hl Hu Hf]; subst;
      cbn [ok body negb];
      rewrite (answers_extract (JObject fields) (Finite q) Hans);
      destruct (positive_gt_zero (Finite q) Hq) as [Hg Ht];
      cbn [truthy le_zero] in *;
      rewrite Ht; cbn [negb orb];
      (destruct (Qle_bool q 0) eqn:Hle;
       [apply Qle_bool_iff in Hle; exfalso; exact (Qlt_not_le _ _ Hq Hle)|]);
      reflexivity.
  - intros Hnone.
    exact (fetchNilaRate_behind_edge_function env url upstream
             Hcfg Hurl Hfetch Hnone).
Qed.

Lemma client_behind_edge_function_witness :
  let upstream :=
    Responded (mkResponse true
                 (Parsed (JObject [("nila",
                                    JObject [("usd",
                                              JNumber (Finite (7 # 100)))])])))
  in
  let env := mkEnv (Some "https://edge.example.org/nila-rate")
                   (fun _ => as_fetched (serve_handler "GET" upstream)) in
  (forall q, answers upstream (Finite q) -> (0 < q)%Q ->
             fetchNilaRate env = Finite q)
  /\ ((forall n, answers upstream n -> ~ positive n) ->
      fetchNilaRate env = Finite (1234 # 100000)).
Proof.
  intros upstream env.
  apply (client_behind_edge_function env
           "https://edge.example.org/nila-rate" upstream).
  - reflexivity.
  - discriminate.
  - reflexivity.
Defined.

(** ** The page hook *)

Lemma hook_invariant events : forall st,
  positive (rate st) -> error st = None ->
  positive (rate (fold_left hook_step events st))
  /\ error (fold_left hook_step events st) = None.
Proof.
  induction events as [|ev events IH]; intros st Hp He; cbn [fold_left];
    [auto|].
  apply IH; destruct ev as [|env]; cbn; auto.
  apply fetch_is_positive.
Qed.


End RateClientsFacts.

(** * Slugs *)

Section SlugFacts.

Import Slug.

Ltac by_cases_on_char c :=
  destruct c as [[] [] [] [] [] [] [] []]; vm_compute;
  intros; try reflexivity; try discriminate.

Lemma slug_char_not_dash c :
  is_slug_char c = true -> Ascii.eqb c dash = false.
Proof. by_cases_on_char c. Qed.

Lemma slug_char_lower c : is_slug_char c = true -> lower_char c = c.
Proof. by_cases_on_char c. Qed.

Lemma dash_not_slug_char : is_slug_char dash = false.
Proof. reflexivity. Qed.

Lemma collapse_loose s : forall in_run,
  loose_from in_run (collapse in_run s) = true.
Proof.
  induction s as [|c s IH]; intros in_run; cbn [collapse]; [reflexivity|].
  destruct (is_slug_char c) eqn:Hc.
  - cbn [loose_from]. rewrite Hc. apply IH.
  - destruct in_run; [apply IH|].
    cbn [loose_from]. rewrite dash_not_slug_char, IH. reflexivity.
Qed.

Lemma loose_from_weaken s : loose_from true s = true -> loose_from false s = true.
Proof.
  destruct s as [|c s]; cbn; [reflexivity|].
  destruct (is_slug_char c); [tauto|].
  rewrite andb_false_r. discriminate.
Qed.

Lemma drop_first_dash_loose s :
  loose_from false s = true -> loose_from true (drop_first_dash s) = true.
Proof.
  destruct s as [|c s]; cbn [drop_first_dash loose_from]; [reflexivity|].
  destruct (is_slug_char c) eqn:Hc.
  - rewrite (slug_char_not_dash c Hc). cbn [loose_from]. now rewrite Hc.
  - intros H. apply andb_true_iff in H. destruct H as [H Hs].
    apply andb_true_iff in H. destruct H as [Hd _]. now rewrite Hd.
Qed.

Lemma drop_last_dash_empty s :
  drop_last_dash s = "" -> s = "" \/ s = String dash "".
Proof.
  destruct s as [|c [|d s]]; cbn; [now left| |discriminate].
  destruct (Ascii.eqb_spec c dash) as [->|_]; [now right|discriminate].
Qed.

Lemma drop_last_dash_well_formed s : forall p,
  loose_from p s = true ->
  drop_last_dash s = "" \/ well_formed_from p (drop_last_dash s) = true.
Proof.
  induction s as [|c s IH]; intros p H; [now left|].
  cbn [loose_from] in H. destruct (is_slug_char c) eqn:Hc.
  - right. destruct s as [|d s].
    + cbn [drop_last_dash]. rewrite (slug_char_not_dash c Hc).
      cbn. now rewrite Hc.
    + change (drop_last_dash (String c (String d s)))
        with (String c (drop_last_dash (String d s))).
      cbn [well_formed_from]. rewrite Hc.
      destruct (IH false H) as [He|Hw]; [|exact Hw].
      apply drop_last_dash_empty in He. destruct He as [He|He];
        [discriminate|].
      injection He as -> ->. reflexivity.
  - apply andb_true_iff in H. destruct H as [H Hs].
    apply andb_true_iff in H. destruct H as [Hd Hp].
    apply Ascii.eqb_eq in Hd. subst c.
    destruct p; [discriminate|].
    destruct s as [|d s]; [now left|]. right.
    change (drop_last_dash (String dash (String d s)))
      with (String dash (drop_last_dash (String d s))).
    cbn [well_formed_from]. rewrite dash_not_slug_char.
    destruct (IH true Hs) as [He|Hw]; [|now rewrite Hw].
    apply drop_last_dash_empty in He. destruct He as [He|He];
      [discriminate|].
    rewrite He in Hs. cbn in Hs. discriminate.
Qed.

Lemma generateSlug_well_formed name : well_formed (generateSlug name) = true.
Proof.
  unfold generateSlug, strip_dashes.
  pose proof (collapse_loose (toLowerCase name) false) as Hl.
  apply drop_first_dash_loose in Hl.
  destruct (drop_last_dash_well_formed _ true Hl) as [->|Hw]; [reflexivity|].
  unfold well_formed. now destruct (drop_last_dash _).
Qed.

Lemma well_formed_from_loose s : forall p,
  well_formed_from p s = true -> loose_from p s = true.
Proof.
  induction s as [|c s IH]; intros p; cbn; [reflexivity|].
  destruct (is_slug_char c); [apply IH|].
  intros H. apply andb_true_iff in H. destruct H as [-> Hs].
  now rewrite (IH true Hs).
Qed.

Lemma loose_lower s : forall p,
  loose_from p s = true -> toLowerCase s = s.
Proof.
  induction s as [|c s IH]; intros p; cbn; [reflexivity|].
  destruct (is_slug_char c) eqn:Hc.
  - intros H. now rewrite (slug_char_lower c Hc), (IH false H).
  - intros H. apply andb_true_iff in H. destruct H as [H Hs].
    apply andb_true_iff in H. destruct H as [Hd _].
    apply Ascii.eqb_eq in Hd. subst c. now rewrite (IH true Hs).
Qed.

Lemma loose_collapse s : forall p,
  loose_from p s = true -> collapse p s = s.
Proof.
  induction s as [|c s IH]; intros p; cbn; [reflexivity|].
  destruct (is_slug_char c) eqn:Hc.
  - intros H. now rewrite (IH false H).
  - intros H. apply andb_true_iff in H. destruct H as [H Hs].
    apply andb_true_iff in H. destruct H as [Hd Hp].
    apply Ascii.eqb_eq in Hd. subst c.
    destruct p; [discriminate|]. now rewrite (IH true Hs).
Qed.

Lemma well_formed_drop_last s : forall p,
  well_formed_from p s = true -> drop_last_dash s = s.
Proof.
  induction s as [|c s IH]; intros p H; [reflexivity|].
  cbn [well_formed_from] in H. destruct s as [|d s].
  - cbn. destruct (is_slug_char c) eqn:Hc.
    + now rewrite (slug_char_not_dash c Hc).
    + cbn in H. rewrite andb_false_r in H. discriminate.
  - change (drop_last_dash (String c (String d s)))
      with (String c (drop_last_dash (String d s))).
    f_equal. destruct (is_slug_char c); [exact (IH false H)|].
    apply andb_true_iff in H. destruct H as [_ H]. exact (IH true H).
Qed.

Lemma well_formed_is_fixed s :
  well_formed s = true -> generateSlug s = s.
Proof.
  destruct s as [|c s]; [reflexivity|]. unfold well_formed. intros H.
  unfold generateSlug, strip_dashes.
  pose proof (well_formed_from_loose _ _ H) as Hl.
  rewrite (loose_lower _ _ Hl).
  rewrite (loose_collapse _ false (loose_from_weaken _ Hl)).
  assert (Hfirst : drop_first_dash (String c s) = String c s).
  { cbn in H |- *. destruct (is_slug_char c) eqn:Hc.
    - now rewrite (slug_char_not_dash c Hc).
    - rewrite andb_false_r in H. discriminate. }
  rewrite Hfirst. exact (well_formed_drop_last _ _ H).
Qed.

Lemma lower_char_slug c : is_slug_char (lower_char c) = is_alnum c.
Proof. by_cases_on_char c. Qed.

Lemma collapse_keeps_emptiness s : forall p,
  all_chars (fun c => negb (is_slug_char c)) (collapse p s)
  = all_chars (fun c => negb (is_slug_char c)) s.
Proof.
  induction s as [|c s IH]; intros p; cbn [collapse all_chars];
    [reflexivity|].
  destruct (is_slug_char c) eqn:Hc.
  - cbn [all_chars]. now rewrite Hc.
  - destruct p; cbn [all_chars negb andb]; [apply IH|].
    rewrite dash_not_slug_char. cbn. apply IH.
Qed.

Lemma drop_first_dash_keeps_emptiness s :
  all_chars (fun c => negb (is_slug_char c)) (drop_first_dash s)
  = all_chars (fun c => negb (is_slug_char c)) s.
Proof.
  destruct s as [|c s]; cbn [drop_first_dash]; [reflexivity|].
  destruct (Ascii.eqb_spec c dash) as [->|_]; reflexivity.
Qed.

Lemma drop_last_dash_keeps_emptiness s :
  all_chars (fun c => negb (is_slug_char c)) (drop_last_dash s)
  = all_chars (fun c => negb (is_slug_char c)) s.
Proof.
  induction s as [|c s IH]; [reflexivity|].
  destruct s as [|d s].
  - cbn [drop_last_dash].
    destruct (Ascii.eqb_spec c dash) as [->|_]; reflexivity.
  - change (drop_last_dash (String c (String d s)))
      with (String c (drop_last_dash (String d s))).
    cbn [all_chars] in *. now rewrite IH.
Qed.

Lemma lower_keeps_emptiness s :
  all_chars (fun c => negb (is_slug_char c)) (toLowerCase s)
  = all_chars (fun c => negb (is_alnum c)) s.
Proof.
  induction s as [|c s IH]; cbn; [reflexivity|].
  now rewrite lower_char_slug, IH.
Qed.

Lemma generateSlug_emptiness name :
  all_chars (fun c => negb (is_slug_char c)) (generateSlug name)
  = all_chars (fun c => negb (is_alnum c)) name.
Proof.
  unfold generateSlug, strip_dashes.
  now rewrite drop_last_dash_keeps_emptiness, drop_first_dash_keeps_emptiness,
    collapse_keeps_emptiness, lower_keeps_emptiness.
Qed.

End SlugFacts.

(** X19: a slug is empty or consists of groups of lower-case letters
    and digits separated by single dashes, with no dash at either end;
    the strings of that form are exactly the ones slugging gives back
    unchanged, so slugging a slug changes nothing. *)
Theorem slugs_are_well_formed_fixed_points name :
  Slug.well_formed (Slug.generateSlug name) = true
  /\ (Slug.well_formed name = true <-> Slug.generateSlug name = name)
  /\ Slug.generateSlug (Slug.generateSlug name) = Slug.generateSlug name.
Proof.
  split; [apply generateSlug_well_formed|]. split.
  - split; [apply well_formed_is_fixed|].
    intros H. rewrite <- H. apply generateSlug_well_formed.
  - apply well_formed_is_fixed, generateSlug_well_formed.
Qed.

Example slug_of_a_name :
  Slug.generateSlug "  Starter Pack (50% off!) " = "starter-pack-50-off".
Proof. reflexivity. Qed.

Example slug_of_punctuation : Slug.generateSlug "--- !!! ---" = "".
Proof. reflexivity. Qed.

(** X20: the slug of a name written in ASCII is empty exactly when the
    name holds no letter and no digit. *)
Theorem ascii_slug_is_empty_iff name :
  ascii_only name = true ->
  (Slug.generateSlug name = ""
   <-> all_chars (fun c => negb (Slug.is_alnum c)) name = true).
Proof.
  intros _.
  rewrite <- generateSlug_emptiness.
  pose proof (generateSlug_well_formed name) as Hw.
  destruct (Slug.generateSlug name) as [|c s]; [now split|].
  split; [discriminate|]. intros H. exfalso.
  cbn in Hw, H. destruct (Slug.is_slug_char c); [discriminate H|].
  rewrite andb_false_r in Hw. discriminate Hw.
Qed.

Lemma ascii_slug_is_empty_iff_witness :
  Slug.generateSlug "--- !!! ---" = ""
  <-> all_chars (fun c => negb (Slug.is_alnum c)) "--- !!! ---" = true.
Proof.
  apply (ascii_slug_is_empty_iff "--- !!! ---"). reflexivity.
Defined.

(** * Image URLs and category selection *)

(** X21: on URLs written in ASCII the image URL helpers never return a
    blank URL: a URL that is missing, empty or only white space is
    replaced by the placeholder, every other URL is returned unchanged,
    and applying a helper to its own result changes nothing. *)
Theorem ascii_image_url_is_never_blank url :
  (forall u, url = Some u -> ascii_only u = true) ->
  let pack := ImageUrl.getCreditPackImageUrl url in
  let icon := ImageUrl.getCategoryIconUrl url in
  is_blank pack = false /\ is_blank icon = false
  /\ (forall u, url = Some u -> is_blank u = false -> pack = u /\ icon = u)
  /\ (url = None \/ (exists u, url = Some u /\ is_blank u = true) ->
      pack = "/images/default-pack.png"
      /\ icon = "/images/default-category.png")
  /\ ImageUrl.getCreditPackImageUrl (Some pack) = pack
  /\ ImageUrl.getCategoryIconUrl (Some icon) = icon.
Proof.
  intros _.
  assert (Hcond : forall u, (u =? "")%string || (Js.trim u =? "")%string
                            = is_blank u).
  { intros u. destruct (is_blank u) eqn:Hb.
    - apply trim_empty in Hb. rewrite Hb. apply orb_true_r.
    - destruct u as [|c u]; [discriminate|]. cbn [String.eqb orb].
      destruct (String.eqb_spec (Js.trim (String c u)) "") as [He|_];
        [|reflexivity].
      apply trim_empty in He. congruence. }
  unfold ImageUrl.getCreditPackImageUrl, ImageUrl.getCategoryIconUrl.
  cbn zeta. destruct url as [u|].
  - rewrite !Hcond. destruct (is_blank u) eqn:Hb.
    + split; [reflexivity|]. split; [reflexivity|].
      split; [intros v [= <-] Hv; congruence|].
      split; [intros _; split; reflexivity|].
      split; reflexivity.
    + cbv iota. rewrite ?Hb.
      split; [reflexivity|]. split; [reflexivity|].
      split; [intros v [= <-] _; split; reflexivity|].
      split; [|split; reflexivity].
      intros [H|(v & [= <-] & Hv)]; [discriminate|congruence].
  - split; [reflexivity|]. split; [reflexivity|].
    split; [intros v H; discriminate H|].
    split; [intros _; split; reflexivity|].
    split; reflexivity.
Qed.

(** A URL of three spaces. *)
Lemma ascii_image_url_is_never_blank_witness :
  let url := Some "   " in
  let pack := ImageUrl.getCreditPackImageUrl url in
  let icon := ImageUrl.getCategoryIconUrl url in
  is_blank pack = false /\ is_blank icon = false
  /\ (forall u, url = Some u -> is_blank u = false -> pack = u /\ icon = u)
  /\ (url = None \/ (exists u, url = Some u /\ is_blank u = true) ->
      pack = "/images/default-pack.png"
      /\ icon = "/images/default-category.png")
  /\ ImageUrl.getCreditPackImageUrl (Some pack) = pack
  /\ ImageUrl.getCategoryIconUrl (Some icon) = icon.
Proof.
  intros url.
  apply (ascii_image_url_is_never_blank url).
  intros u [= <-]. reflexivity.
Defined.

Lemma filter_commute {A} (f g : A -> bool) (l : list A) :
  filter f (filter g l) = filter g (filter f l).
Proof.
  induction l as [|a l IH]; [reflexivity|]. cbn.
  destruct (f a) eqn:Hf, (g a) eqn:Hg; cbn; rewrite ?Hf, ?Hg; congruence.
Qed.

(** X22: ticking a category appends its id to the selection; unticking
    removes every occurrence of it and keeps the other ids in their
    order, so unticking after ticking is the same as unticking, and
    unticking an id that is not selected changes nothing. *)
Theorem category_selection categoryId prev :
  let tick := PackModal.handleCategoryChange categoryId true in
  let untick := PackModal.handleCategoryChange categoryId false in
  tick prev = prev ++ [categoryId]
  /\ (forall id, In id (untick prev) <-> id <> categoryId /\ In id prev)
  /\ untick (tick prev) = untick prev
  /\ untick (untick prev) = untick prev
  /\ (~ In categoryId prev -> untick prev = prev)
  /\ (forall other checked, other <> categoryId ->
        untick (PackModal.handleCategoryChange other checked prev)
        = PackModal.handleCategoryChange other checked (untick prev)).
Proof.
  cbn zeta. unfold PackModal.handleCategoryChange.
  split; [reflexivity|]. split; [|split; [|split; [|split]]].
  - intros id. rewrite filter_In.
    destruct (String.eqb_spec id categoryId); cbn; split;
      try tauto; intros [H1 H2]; try discriminate; tauto.
  - rewrite filter_app. cbn. rewrite String.eqb_refl. cbn.
    apply app_nil_r.
  - induction prev as [|x prev IH]; [reflexivity|]. cbn.
    destruct (String.eqb_spec x categoryId) as [->|Hne]; cbn; [exact IH|].
    apply String.eqb_neq in Hne. rewrite Hne. cbn. now f_equal.
  - intros Hnot. induction prev as [|x prev IH]; [reflexivity|]. cbn.
    destruct (String.eqb_spec x categoryId) as [->|Hne]; cbn.
    + elim Hnot. now left.
    + f_equal. apply IH. intros H. apply Hnot. now right.
  - intros other checked Hne. destruct checked.
    + rewrite filter_app. cbn.
      apply String.eqb_neq in Hne. now rewrite Hne.
    + apply filter_commute.
Qed.

(** * Uploading a credit pack image *)

Section UploadFacts.

Import Upload.

Lemma errorMessage_not_empty message : errorMessage message <> "".
Proof.
  unfold errorMessage. destruct message as [m|]; [|discriminate].
  destruct (includes "authenticated" m); [discriminate|].
  destruct (includes "storage.objects.insert" m); [discriminate|].
  destruct (includes "size" m); discriminate.
Qed.

Lemma allowed_type_spec t :
  existsb (String.eqb t) allowedTypes = true <-> In t allowedTypes.
Proof.
  rewrite existsb_exists. split.
  - intros (x & Hin & Heq). apply String.eqb_eq in Heq. now subst.
  - intros Hin. exists t. split; [exact Hin|apply String.eqb_refl].
Qed.

(** When the upload is attempted and what it is handed. *)
Lemma upload_calls env file :
  snd (uploadCreditPackImage env file)
  = if match getSession env with Some true => true | _ => false end
       && (size file <=? 5242880)
       && existsb (String.eqb (type file)) allowedTypes
    then [uploadPath env file] else [].
Proof.
  unfold uploadCreditPackImage.
  destruct (getSession env) as [[|]|]; cbn [andb]; try reflexivity.
  change (5 * 1024 * 1024) with 5242880.
  rewrite Z.gtb_ltb, Z.ltb_antisym.
  destruct (size file <=? 5242880); cbn [negb andb]; [|reflexivity].
  destruct (existsb _ allowedTypes); cbn [negb]; [|reflexivity].
  destruct (upload env _ file); [reflexivity|reflexivity|].
  destruct (getPublicUrl env _) as [[|c u]|]; reflexivity.
Qed.

End UploadFacts.

(** Closes the goal of a failed upload, given why its message is not
    empty. *)
Ltac failed_with nonempty :=
  split;
  [ left; split; [reflexivity|]; eexists; split; [reflexivity|nonempty]
  | split; [reflexivity|]; cbn; split; [discriminate|reflexivity] ].

(** X23: [uploadCreditPackImage] always returns exactly one of a URL
    and an error message: either no URL and a non-empty message, or no
    message and a non-empty URL, the latter only when the file was
    stored and the store gave that public URL for its path.
    [uploadCreditPackImageSimple] returns that URL, and null exactly
    when there is an error message. *)
Theorem upload_result_is_url_or_error env file :
  let result := fst (Upload.uploadCreditPackImage env file) in
  let path := Upload.uploadPath env file in
  ((Upload.url result = None
    /\ exists message, Upload.error result = Some message /\ message <> "")
   \/ (Upload.error result = None
       /\ exists publicUrl,
            Upload.url result = Some publicUrl /\ publicUrl <> ""
            /\ Upload.upload env path file = Upload.UploadStored
            /\ Upload.getPublicUrl env path = Some publicUrl))
  /\ Upload.uploadCreditPackImageSimple env file = Upload.url result
  /\ (Upload.uploadCreditPackImageSimple env file = None
      <-> Upload.error result <> None).
Proof.
  cbn zeta. unfold Upload.uploadCreditPackImageSimple.
  unfold Upload.uploadCreditPackImage.
  destruct (Upload.getSession env) as [[|]|]; try failed_with discriminate.
  destruct (Upload.size file >? 5 * 1024 * 1024);
    try failed_with discriminate.
  destruct (negb (existsb _ Upload.allowedTypes));
    try failed_with discriminate.
  destruct (Upload.upload env _ file) as [|message|] eqn:Hup;
    try failed_with discriminate.
  - failed_with ltac:(apply errorMessage_not_empty).
  - destruct (Upload.getPublicUrl env _) as [[|c u]|] eqn:Hurl;
      try failed_with discriminate.
    split; [|split; [reflexivity|]].
    + right. split; [reflexivity|]. exists (String c u).
      repeat split; try reflexivity. discriminate.
    + cbn. split; [discriminate|]. intros H. now elim H.
Qed.

(** X24: the file is handed to the store at most once, and exactly
    when a session exists, the file is no larger than 5 MiB and its
    type is one of JPEG, PNG, GIF and WebP; an unauthenticated caller,
    an oversized file or another type never reaches the store.  The
    size is checked before the type. *)
Theorem upload_is_guarded env file :
  let calls := snd (Upload.uploadCreditPackImage env file) in
  (calls = [Upload.uploadPath env file] \/ calls = [])
  /\ (calls = [Upload.uploadPath env file]
      <-> Upload.getSession env = Some true
          /\ Upload.size file <= 5242880
          /\ In (Upload.type file) Upload.allowedTypes)
  /\ (Upload.getSession env = Some true -> Upload.size file > 5242880 ->
      Upload.error (fst (Upload.uploadCreditPackImage env file))
      = Some "File size exceeds 5MB limit.").
Proof.
  cbn zeta. rewrite upload_calls. split; [|split].
  - destruct (_ && _ && _); auto.
  - rewrite <- allowed_type_spec.
    destruct (Upload.getSession env) as [[|]|]; cbn [andb];
      try (split; [discriminate|intros [H _]; discriminate H]).
    destruct (Z.leb_spec (Upload.size file) 5242880) as [Hle|Hgt];
      cbn [andb].
    + destruct (existsb _ Upload.allowedTypes).
      * split; auto.
      * split; [discriminate|]. intros (_ & _ & H). discriminate H.
    + split; [discriminate|]. intros (_ & H & _). lia.
  - intros Hs Hgt. unfold Upload.uploadCreditPackImage. rewrite Hs.
    change (5 * 1024 * 1024) with 5242880.
    destruct (Z.gtb_spec (Upload.size file) 5242880); [reflexivity|lia].
Qed.

Section UploadPaths.

Import Upload.

Lemma lower_char_plain c : no_dot c = true -> plain_char (lower_char c) = true.
Proof.
  destruct c as [[] [] [] [] [] [] [] []]; vm_compute;
    intros; try reflexivity; discriminate.
Qed.

Lemma toLowerCase_plain s :
  all_chars no_dot s = true -> all_chars plain_char (toLowerCase s) = true.
Proof.
  induction s as [|c s IH]; cbn; [reflexivity|].
  intros H. apply andb_true_iff in H. destruct H as [Hc Hs].
  now rewrite (lower_char_plain c Hc), IH.
Qed.

Lemma last_segment_no_dot s : forall acc,
  all_chars no_dot acc = true ->
  all_chars no_dot (last_segment acc s) = true.
Proof.
  induction s as [|c s IH]; intros acc Hacc; cbn [last_segment];
    [exact Hacc|].
  destruct (Ascii.eqb c ".") eqn:Hc; [now apply IH|].
  apply IH. rewrite all_chars_app, Hacc. cbn. unfold no_dot.
  now rewrite Hc.
Qed.

Lemma last_segment_plain s : forall acc,
  all_chars no_dot s = true -> last_segment acc s = (acc ++ s)%string.
Proof.
  induction s as [|c s IH]; intros acc H; cbn [last_segment].
  - now rewrite string_app_nil_r.
  - cbn in H. apply andb_true_iff in H. destruct H as [Hc Hs].
    unfold no_dot in Hc. apply negb_true_iff in Hc. rewrite Hc.
    rewrite (IH _ Hs), string_app_assoc. reflexivity.
Qed.

Lemma last_segment_after_dot base : forall acc ext,
  all_chars no_dot ext = true ->
  last_segment acc (base ++ String "." ext) = ext.
Proof.
  induction base as [|c base IH]; intros acc ext Hext;
    cbn [String.append last_segment].
  - cbn. now rewrite (last_segment_plain ext "" Hext).
  - destruct (Ascii.eqb c "."); now apply IH.
Qed.

End UploadPaths.

(** X25: the path handed to the store is "credit-packs/", the decimal
    timestamp, a dash, at most thirteen random characters, a dot and an
    extension; the extension is never empty and holds no dot and no
    upper-case letter.  It is the lower-cased text after the last dot
    of the file name, "jpg" when that text is empty, and the whole
    lower-cased name when the name has no dot. *)
Theorem upload_path_shape env file :
  (exists random,
      Upload.uploadPath env file
      = ("credit-packs/" ++ Js.number_to_string (Upload.now env) ++ "-"
           ++ random ++ "." ++ Upload.fileExt (Upload.name file))%string
      /\ (String.length random <= 13)%nat)
  /\ Upload.fileExt (Upload.name file) <> ""
  /\ all_chars plain_char (Upload.fileExt (Upload.name file)) = true
  /\ (forall base ext,
        all_chars no_dot ext = true ->
        Upload.fileExt (base ++ String "." ext)
        = match toLowerCase ext with
          | EmptyString => "jpg"
          | lowered => lowered
          end)
  /\ (forall whole,
        all_chars no_dot whole = true -> whole <> "" ->
        Upload.fileExt whole = toLowerCase whole).
Proof.
  split; [|split; [|split; [|split]]].
  - eexists. split; [reflexivity|]. apply substring_length.
  - unfold Upload.fileExt. destruct (toLowerCase _); discriminate.
  - unfold Upload.fileExt.
    pose proof (toLowerCase_plain _
                  (last_segment_no_dot (Upload.name file) "" eq_refl)) as H.
    destruct (toLowerCase _); [reflexivity|exact H].
  - intros base ext Hext. unfold Upload.fileExt.
    now rewrite (last_segment_after_dot base "" ext Hext).
  - intros whole Hw Hne. unfold Upload.fileExt.
    rewrite (last_segment_plain whole "" Hw). cbn [String.append].
    destruct whole as [|c w]; [now elim Hne|]. reflexivity.
Qed.

Example upload_path_of_a_photo :
  Upload.uploadPath
    (Upload.mkEnv (Some true) 1714554000000 "0.4fzyo82mvyr9k2j1"
                  (fun _ _ => Upload.UploadStored) (fun _ => None))
    (Upload.mkFile "Holiday.Photo.JPEG" 120000 "image/jpeg")
  = "credit-packs/1714554000000-4fzyo82mvyr9k.jpeg".
Proof. reflexivity. Qed.

Ltac image_failed :=
  cbn; split; [reflexivity|]; split; [discriminate|];
  split; [left; eexists; split; [reflexivity|split; reflexivity]
         |reflexivity].

(** X26: after [handleFileUpload] on a chosen file the uploading flag
    is off and the image state shows either the error message of the
    upload, with the featured image left as it was, or no error and
    the uploaded file's public URL as featured image; the message
    "Upload completed but no URL returned" is never shown.  With no
    file chosen the state is left alone. *)
Theorem file_upload_updates_image_state env file st :
  let result := fst (Upload.uploadCreditPackImage env file) in
  let st' := Upload.handleFileUpload env (Some file) st in
  Upload.imageUploading st' = false
  /\ Upload.imageError st'
     <> Some "Upload completed but no URL returned. Please try again."
  /\ ((exists message,
          Upload.error result = Some message
          /\ Upload.imageError st' = Some message
          /\ Upload.featuredImageUrl st' = Upload.featuredImageUrl st)
      \/ (exists publicUrl,
            Upload.url result = Some publicUrl
            /\ Upload.imageError st' = None
            /\ Upload.featuredImageUrl st' = Some publicUrl))
  /\ Upload.handleFileUpload env None st = st.
Proof.
  cbn zeta. unfold Upload.handleFileUpload, Upload.uploadCreditPackImage.
  assert (Hmsg : forall message,
             exists c m, Upload.errorMessage message = String c m
                         /\ String c m
                            <> "Upload completed but no URL returned. Please try again.").
  { intros message. unfold Upload.errorMessage.
    destruct message as [m|]; [|eexists _, _; split; [reflexivity|discriminate]].
    destruct (Upload.includes "authenticated" m);
      [eexists _, _; split; [reflexivity|discriminate]|].
    destruct (Upload.includes "storage.objects.insert" m);
      [eexists _, _; split; [reflexivity|discriminate]|].
    destruct (Upload.includes "size" m);
      eexists _, _; split; try reflexivity; discriminate. }
  destruct (Upload.getSession env) as [[|]|]; try image_failed.
  destruct (Upload.size file >? 5 * 1024 * 1024); try image_failed.
  destruct (negb (existsb _ Upload.allowedTypes)); try image_failed.
  destruct (Upload.upload env _ file) as [|message|]; try image_failed.
  - destruct (Hmsg message) as (c & m & He & Hne).
    cbn [fst Upload.failure Upload.error Upload.url]. rewrite He. cbn.
    split; [reflexivity|]. split; [congruence|].
    split; [left; eexists; repeat split|reflexivity].
  - destruct (Upload.getPublicUrl env _) as [[|c u]|]; try image_failed.
    cbn. split; [reflexivity|]. split; [discriminate|].
    split; [right; eexists; repeat split|reflexivity].
Qed.

(** * The client behind the Express route *)

Section ExpressClient.

Import NilaRate RateClients.

(** X27: a client whose endpoint is served by the Express route.  When
    the route's CoinGecko request fails or its ok body does not parse,
    the route answers 500 and the client turns to CoinGecko itself, as
    if no endpoint were configured; in every other case the client
    gets what it would get from the edge function. *)
Theorem client_behind_express_route env url upstream :
  VITE_NILA_RATE_ENDPOINT env = Some url ->
  url <> "" ->
  fetch env url = as_fetched (express_route upstream) ->
  (readable upstream = false ->
   fetchNilaRate env = fetchNilaRate (mkEnv None (fetch env)))
  /\ (readable upstream = true ->
      fetch env url = as_fetched (serve_handler "GET" upstream)).
Proof.
  intros Hcfg Hurl Hfetch. split.
  - intros Hr. unfold fetchNilaRate at 1, backend_proxy, fetch_ok_json.
    rewrite Hcfg. destruct url as [|c url]; [now elim Hurl|].
    rewrite Hfetch.
    assert (He : express_route upstream = error_response).
    { unfold express_route, readable in *.
      destruct upstream as [|[o b]]; [reflexivity|]. cbn [ok body] in *.
      destruct o; cbn [negb orb] in *; [|discriminate].
      destruct b; [reflexivity|discriminate]. }
    rewrite He. reflexivity.
  - intros Hr. rewrite Hfetch. f_equal.
    unfold express_route, serve_handler, readable in *.
    change (("GET" =? "GET")%string) with true. cbn [negb].
    destruct upstream as [|[o b]]; [discriminate|]. cbn [ok body] in *.
    destruct o; cbn [negb orb] in *; [|reflexivity].
    destruct b; [discriminate|reflexivity].
Qed.

Lemma client_behind_express_route_witness :
  let env := mkEnv (Some "https://api.example.org/api/v1/nila-rate")
               (fun url =>
                  if (url =? "https://api.example.org/api/v1/nila-rate")%string
                  then as_fetched (express_route NetworkError)
                  else Responded
                         (mkResponse true
                            (Parsed
                               (JObject
                                  [("nila", JNumber (Finite (4 # 100)))])))) in
  (readable NetworkError = false ->
   fetchNilaRate env = fetchNilaRate (mkEnv None (fetch env)))
  /\ (readable NetworkError = true ->
      fetch env "https://api.example.org/api/v1/nila-rate"
      = as_fetched (serve_handler "GET" NetworkError)).
Proof.
  intros env.
  apply (client_behind_express_route env
           "https://api.example.org/api/v1/nila-rate" NetworkError).
  - reflexivity.
  - discriminate.
  - reflexivity.
Defined.

End ExpressClient.

(** * The lower end of the credits *)

(** X28: the handler checks the credits against the balance only from
    above.  A form with zero or negative credits, which nothing but the
    [min] attribute of the input keeps out, passes validation; with no
    store fault and a new settlement id it is recorded, the ledger
    entry carries an amount that is not negative, and the balance
    written is not below the cached one. *)
Theorem non_positive_credits_are_recorded users formData env db u :
  find_user users (Form.userId formData) = Some u ->
  Form.creditsUsed formData <= 0 ->
  0 <= User.credit_balance u ->
  faults env = no_faults ->
  Store.has_settlementId (generateSettlementId env) db = false ->
  exists db' entry,
    handleRecordSettlement users formData env db = (db', Recorded)
    /\ credit_ledger db' = credit_ledger db ++ [entry]
    /\ 0 <= Ledger.amount entry
    /\ User.credit_balance u <= Ledger.balance_after entry
    /\ forall p, In p (profiles db') ->
                 Profile.id p = Form.userId formData ->
                 User.credit_balance u <= Profile.credit_balance p.
Proof.
  intros Hf Hneg Hb Hnf Hfresh.
  eexists _, _. split.
  - apply recorded_when_clean; [exact Hf|lia|exact Hnf|exact Hfresh].
  - split; [reflexivity|]. cbn. split; [lia|]. split; [lia|].
    intros p Hin Hid. rewrite (updated_rows_hold _ _ _ _ _ Hin Hid). lia.
Qed.

Lemma non_positive_credits_are_recorded_witness :
  exists db' entry,
    handleRecordSettlement [Scenario.user 500] (Scenario.form (-50))
      (Scenario.env no_faults) (Scenario.db 500) = (db', Recorded)
    /\ credit_ledger db' = [] ++ [entry]
    /\ 0 <= Ledger.amount entry
    /\ 500 <= Ledger.balance_after entry
    /\ forall p, In p (profiles db') ->
                 Profile.id p = "user-1" ->
                 500 <= Profile.credit_balance p.
Proof.
  apply (non_positive_credits_are_recorded [Scenario.user 500]
           (Scenario.form (-50)) (Scenario.env no_faults) (Scenario.db 500)
           (Scenario.user 500)).
  - reflexivity.
  - cbn. lia.
  - cbn. lia.
  - reflexivity.
  - reflexivity.
Defined.
